(** * 38C3-Downloader: the catalog, the asset fetcher and the page scrapers

    A shallow embedding of [main.py].  The script keeps a SQLite catalog
    (tables [talks] and [files]), downloads assets over HTTP and scrapes
    two kinds of HTML pages.  Every Python function that the properties
    below talk about is transcribed as a Rocq function of the same name:

    - code that raises is written in a state-and-exception monad, so that
      the state at the moment of the raise stays observable;
    - a Python [dict] is a [gmap string pyval], a table keyed by its
      primary key is a [gmap Z _], a table with a surrogate key is a list
      in rowid order;
    - what the libraries do (SQLite's column affinity, [str.lower],
      [str.strip], [int(...)], the remote servers) is either written out
      or taken as a section variable, never guessed. *)

From Stdlib Require Import ZArith List String Ascii Lia.
From stdpp Require Import base option list gmap strings pretty.

Set Warnings "-register-all".

Import ListNotations.
Local Open Scope string_scope.
Local Open Scope list_scope.
Local Open Scope Z_scope.

(** ** Python values, exceptions and the monad of effectful code *)

Module Py.

(** The JSON scalars the feed carries, as Python sees them.  A [str] is
    kept as its UTF-8 bytes: concatenation, equality, the substring test
    [in] and the ordering by code point all agree with the byte-wise
    operations on that encoding. *)
Inductive pyval :=
| PNone
| PInt (z : Z)
| PStr (s : string).

Inductive exn :=
| KeyError (key : string)
| TypeError
| OverflowError
| ProgrammingError
| IntegrityError
| OperationalError
| FileNotFoundError
| AttributeError
| RequestException.

Inductive result (A : Type) :=
| Return (a : A)
| Raise (e : exn).
Arguments Return {A} a.
Arguments Raise {A} e.

(** [bool(v)] *)
Definition truthy (v : pyval) : bool :=
  match v with
  | PNone => false
  | PInt z => negb (z =? 0)
  | PStr s => negb (String.eqb s "")
  end.

(** [a > b]: defined between two ints and between two strs. *)
Definition gt (a b : pyval) : result bool :=
  match a, b with
  | PInt x, PInt y => Return (y <? x)
  | PStr x, PStr y => Return (String.ltb y x)
  | _, _ => Raise TypeError
  end.

(** [needle in hay] on two strs *)
Fixpoint str_in (needle hay : string) : bool :=
  String.prefix needle hay ||
  match hay with
  | EmptyString => false
  | String _ hay' => str_in needle hay'
  end.

(** [s.endswith(suffix)] *)
Fixpoint endswith (s suffix : string) : bool :=
  String.eqb s suffix ||
  match s with
  | EmptyString => false
  | String _ s' => endswith s' suffix
  end.

(** A computation over a state [S] that returns or raises; the state
    reached is kept in both cases. *)
Definition M (S A : Type) : Type := S -> result A * S.

Definition ret {S A} (a : A) : M S A := fun s => (Return a, s).
Definition raise {S A} (e : exn) : M S A := fun s => (Raise e, s).
Definition bind {S A B} (c : M S A) (k : A -> M S B) : M S B :=
  fun s =>
    match c s with
    | (Return a, s') => k a s'
    | (Raise e, s') => (Raise e, s')
    end.
Definition lift {S A} (r : result A) : M S A := fun s => (r, s).
Definition get_state {S} : M S S := fun s => (Return s, s).
Definition put_state {S} (s : S) : M S unit := fun _ => (Return tt, s).

(** [try: body  except E: handler], where [catches] tells the members of
    the class [E]. *)
Definition try_except {S A} (body : M S A) (catches : exn -> bool)
    (handler : M S A) : M S A :=
  fun s =>
    match body s with
    | (Raise e, s') => if catches e then handler s' else (Raise e, s')
    | r => r
    end.

(** [for x in l: body x] *)
Fixpoint for_each {S A} (l : list A) (body : A -> M S unit) : M S unit :=
  match l with
  | [] => ret tt
  | x :: l' => bind (body x) (fun _ => for_each l' body)
  end.

(** Evaluation of a tuple of fallible expressions, left to right. *)
Fixpoint traverse {A B} (f : A -> result B) (l : list A) : result (list B) :=
  match l with
  | [] => Return []
  | x :: l' =>
      match f x with
      | Raise e => Raise e
      | Return y =>
          match traverse f l' with
          | Raise e => Raise e
          | Return ys => Return (y :: ys)
          end
      end
  end.

(** Dictionaries with string keys. *)
Abbreviation dict := (gmap string pyval).

(** [d[k]] *)
Definition getitem (d : dict) (k : string) : result pyval :=
  match d !! k with
  | Some v => Return v
  | None => Raise (KeyError k)
  end.

(** [d.get(k)] and [d.get(k, dflt)] *)
Definition get (d : dict) (k : string) : pyval := default PNone (d !! k).
Definition get_or (d : dict) (k : string) (dflt : pyval) : pyval :=
  default dflt (d !! k).

End Py.
Import Py.

Declare Scope py_scope.
Delimit Scope py_scope with py.
Notation "x <- c ;; k" := (bind c (fun x => k))
  (at level 100, c at next level, right associativity) : py_scope.
Notation "c ;; k" := (bind c (fun _ => k))
  (at level 100, right associativity) : py_scope.
Local Open Scope py_scope.

(** ** The catalog: SQLite through the [sqlite3] module *)

Module Catalog.

(** Storage classes (REAL and BLOB never arise from the values above). *)
Inductive sqlval :=
| SqlNull
| SqlInt (z : Z)
| SqlText (s : string).

Global Instance sqlval_eq_dec : EqDecision sqlval.
Proof. solve_decision. Defined.

(** A row of [talks]; the column [id INTEGER PRIMARY KEY] is the rowid and
    is the key of the table. *)
Record talk_row := TalkRow {
  guid : sqlval;
  title : sqlval;
  room : sqlval;
  status : sqlval;
  start : sqlval;
  duration : sqlval;
  release_url : sqlval;
  authors : sqlval;
  description : sqlval;
  last_mtime : sqlval
}.

(** A row of [files]; [file_id] is [id INTEGER PRIMARY KEY AUTOINCREMENT]. *)
Record file_row := FileRow {
  file_id : Z;
  talk_id : sqlval;
  file_type : sqlval;
  file_url : sqlval;
  local_path : sqlval
}.

(** The database behind a connection.  Every statement the script runs is
    followed by [conn.commit()] or raises before it has written anything,
    so one committed state is all there is to track.  [files_seq] is the
    largest rowid [files] ever handed out (table [sqlite_sequence]). *)
Record conn := Conn {
  talks : gmap Z talk_row;
  files : list file_row;
  files_seq : Z
}.

(** [init_db] on a fresh database file. *)
Definition init_db : conn := Conn ∅ [] 0.

Definition max_rowid : Z := 2 ^ 63 - 1.
Definition int64 (z : Z) : bool := (- 2 ^ 63 <=? z) && (z <=? max_rowid).

(** How [sqlite3] binds a Python value to a [?]. *)
Definition adapt (v : pyval) : result sqlval :=
  match v with
  | PNone => Return SqlNull
  | PInt z => if int64 z then Return (SqlInt z) else Raise OverflowError
  | PStr s => Return (SqlText s)
  end.

(** What [fetchone] hands back for a column. *)
Definition convert (v : sqlval) : pyval :=
  match v with
  | SqlNull => PNone
  | SqlInt z => PInt z
  | SqlText s => PStr s
  end.

Inductive statement :=
| SELECT_talk         (* SELECT id, last_mtime FROM talks WHERE id = ? *)
| INSERT_talk         (* INSERT INTO talks (id, guid, title, room, status,
                         start, duration, release_url, last_mtime) VALUES ... *)
| UPDATE_talk         (* UPDATE talks SET guid = ?, title = ?, room = ?,
                         status = ?, start = ?, duration = ?, release_url = ?,
                         last_mtime = ? WHERE id = ? *)
| UPDATE_enrichment   (* UPDATE talks SET authors = ?, description = ?
                         WHERE id = ? *)
| SELECT_file         (* SELECT id FROM files WHERE talk_id = ?
                         AND file_type = ? AND file_url = ? *)
| INSERT_file.        (* INSERT INTO files (talk_id, file_type, file_url,
                         local_path) VALUES (?, ?, ?, ?) *)

Section Engine.

(** What SQLite makes of a TEXT value that meets INTEGER affinity: the
    integer it spells, or the text itself when it spells none. *)
Variable numeric_affinity : string -> sqlval.

(** The rowid SQLite picks at random once the largest one is taken;
    [None] when it gives up. *)
Variable random_rowid : gmap Z talk_row -> option Z.

Definition integer_affinity (v : sqlval) : sqlval :=
  match v with
  | SqlText s => numeric_affinity s
  | _ => v
  end.

Definition text_affinity (v : sqlval) : sqlval :=
  match v with
  | SqlInt z => SqlText (pretty z)
  | _ => v
  end.

(** The rowid a value denotes when compared with, or stored into, an
    INTEGER PRIMARY KEY. *)
Definition as_rowid (v : sqlval) : option Z :=
  match integer_affinity v with
  | SqlInt z => Some z
  | _ => None
  end.

(** SQL [=]: NULL equals nothing. *)
Definition sql_eq (a b : sqlval) : bool :=
  match a, b with
  | SqlNull, _ | _, SqlNull => false
  | _, _ => bool_decide (a = b)
  end.

Definition largest_rowid (t : gmap Z talk_row) : option Z :=
  map_fold (fun k _ acc => Some (from_option (Z.max k) k acc)) None t.

Definition new_rowid (t : gmap Z talk_row) : option Z :=
  match largest_rowid t with
  | None => Some 1
  | Some m => if m <? max_rowid then Some (m + 1) else random_rowid t
  end.

Definition set_talks (t : gmap Z talk_row) : M conn unit :=
  fun c => (Return tt, Conn t (files c) (files_seq c)).

Definition file_matches (ps : sqlval * sqlval * sqlval) (r : file_row) : bool :=
  let '(t, ty, u) := ps in
  sql_eq (talk_id r) (integer_affinity t)
  && sql_eq (file_type r) (text_affinity ty)
  && sql_eq (file_url r) (text_affinity u).

(** One statement on bound parameters; the rows of the result set. *)
Definition run (stmt : statement) (ps : list sqlval)
  : M conn (list (list sqlval)) :=
  c <- get_state ;;
  match stmt, ps with
  | SELECT_talk, [i] =>
      match as_rowid i with
      | Some k =>
          match talks c !! k with
          | Some r => ret [[SqlInt k; last_mtime r]]
          | None => ret []
          end
      | None => ret []
      end
  | INSERT_talk, [i; g; t; r; s; st; d; u; m] =>
      let row := TalkRow (text_affinity g) (text_affinity t)
                   (text_affinity r) (text_affinity s)
                   (integer_affinity st) (integer_affinity d)
                   (text_affinity u) SqlNull SqlNull
                   (integer_affinity m) in
      match i with
      | SqlNull =>
          match new_rowid (talks c) with
          | Some k => set_talks (<[k := row]> (talks c)) ;; ret []
          | None => raise OperationalError
          end
      | _ =>
          match as_rowid i with
          | Some k =>
              match talks c !! k with
              | Some _ => raise IntegrityError
              | None => set_talks (<[k := row]> (talks c)) ;; ret []
              end
          | None => raise IntegrityError
          end
      end
  | UPDATE_talk, [g; t; r; s; st; d; u; m; i] =>
      match as_rowid i with
      | Some k =>
          match talks c !! k with
          | Some old =>
              let row := TalkRow (text_affinity g) (text_affinity t)
                           (text_affinity r) (text_affinity s)
                           (integer_affinity st) (integer_affinity d)
                           (text_affinity u) (authors old) (description old)
                           (integer_affinity m) in
              set_talks (<[k := row]> (talks c)) ;; ret []
          | None => ret []
          end
      | None => ret []
      end
  | UPDATE_enrichment, [a; d; i] =>
      match as_rowid i with
      | Some k =>
          match talks c !! k with
          | Some old =>
              let row := TalkRow (guid old) (title old) (room old)
                           (status old) (start old) (duration old)
                           (release_url old)
                           (text_affinity a) (text_affinity d)
                           (last_mtime old) in
              set_talks (<[k := row]> (talks c)) ;; ret []
          | None => ret []
          end
      | None => ret []
      end
  | SELECT_file, [t; ty; u] =>
      ret (map (fun r => [SqlInt (file_id r)])
             (List.filter (file_matches (t, ty, u)) (files c)))
  | INSERT_file, [t; ty; u; p] =>
      let seq := fold_right Z.max (files_seq c) (map file_id (files c)) in
      if seq <? max_rowid then
        let row := FileRow (seq + 1) (integer_affinity t) (text_affinity ty)
                     (text_affinity u) (text_affinity p) in
        put_state (Conn (talks c) (files c ++ [row]) (seq + 1)) ;; ret []
      else raise OperationalError
  | _, _ => raise ProgrammingError
  end.

(** [c.execute(sql, parameters)] *)
Definition execute (stmt : statement) (parameters : list pyval)
  : M conn (list (list sqlval)) :=
  ps <- lift (traverse adapt parameters) ;;
  run stmt ps.

(** [c.fetchone()] right after [execute]. *)
Definition fetchone (rows : list (list sqlval)) : option (list pyval) :=
  match rows with
  | [] => None
  | r :: _ => Some (map convert r)
  end.

(** [conn.commit()] *)
Definition commit : M conn unit := ret tt.

(** [row[1]] *)
Definition item1 (row : list pyval) : pyval := nth 1 row PNone.

Definition upsert_talk (talk_data : dict) : M conn unit :=
  id <- lift (getitem talk_data "id") ;;
  rows <- execute SELECT_talk [id] ;;
  match fetchone rows with
  | None =>
      id <- lift (getitem talk_data "id") ;;
      execute INSERT_talk
        [ id;
          get talk_data "guid";
          get talk_data "title";
          get talk_data "room";
          get talk_data "status";
          get talk_data "start";
          get talk_data "duration";
          get talk_data "release_url";
          get_or talk_data "mtime" (PInt 0) ] ;;
      commit
  | Some row =>
      let existing_mtime :=
        if truthy (item1 row) then item1 row else PInt 0 in
      mtime <- lift (getitem talk_data "mtime") ;;
      newer <- lift (gt mtime existing_mtime) ;;
      (if newer : bool then
         id <- lift (getitem talk_data "id") ;;
         execute UPDATE_talk
           [ get talk_data "guid";
             get talk_data "title";
             get talk_data "room";
             get talk_data "status";
             get talk_data "start";
             get talk_data "duration";
             get talk_data "release_url";
             get talk_data "mtime";
             id ] ;;
         ret tt
       else ret tt) ;;
      commit
  end.

(** The arguments are typed as the docstring has them and as every call
    in [main] passes them: [talk_id] an int, the other three strs
    ([local_path] is bound as [str(local_path)]). *)
Definition insert_or_ignore_file
    (talk_id : Z) (file_type file_url local_path : string) : M conn unit :=
  rows <- execute SELECT_file
            [PInt talk_id; PStr file_type; PStr file_url] ;;
  match fetchone rows with
  | None =>
      execute INSERT_file
        [PInt talk_id; PStr file_type; PStr file_url; PStr local_path] ;;
      commit
  | Some _ => ret tt
  end.

(** The enrichment step of [main] (step 3c): "Autoren + Beschreibung
    updaten (nur wenn wir was gefunden haben)", on the two strings
    [extra_info["authors"]] and [extra_info["description"]]. *)
Definition update_enrichment
    (talk_id : Z) (authors description : string) : M conn unit :=
  if truthy (PStr authors) || truthy (PStr description) then
    execute UPDATE_enrichment [PStr authors; PStr description; PInt talk_id] ;;
    commit
  else ret tt.

(** A run of calls of [insert_or_ignore_file], in order; the arguments of a
    call are [(talk_id, file_type, file_url, local_path)]. *)
Definition insert_or_ignore_files
    (calls : list (Z * string * string * string)) : M conn unit :=
  for_each calls
    (fun '(talk_id, file_type, file_url, local_path) =>
       insert_or_ignore_file talk_id file_type file_url local_path).

(** *** Notions the statements below are phrased with *)

(** The eight values both INSERT and UPDATE bind besides the id. *)
Definition fields (talk_data : dict) (mtime : pyval) : list pyval :=
  [ get talk_data "guid"; get talk_data "title"; get talk_data "room";
    get talk_data "status"; get talk_data "start"; get talk_data "duration";
    get talk_data "release_url"; mtime ].

(** The row they are stored as, next to the enrichment columns [a], [d]. *)
Definition row_of (ps : list sqlval) (a d : sqlval) : option talk_row :=
  match ps with
  | [g; t; r; s; st; du; u; m] =>
      Some (TalkRow (text_affinity g) (text_affinity t) (text_affinity r)
              (text_affinity s) (integer_affinity st)
              (integer_affinity du) (text_affinity u) a d
              (integer_affinity m))
  | _ => None
  end.

Definition with_talks (c : conn) (t : gmap Z talk_row) : conn :=
  Conn t (files c) (files_seq c).

(** [row[1] if row[1] else 0] for a stored [last_mtime]. *)
Definition existing_mtime (v : sqlval) : pyval :=
  if truthy (convert v) then convert v else PInt 0.

(** The rowid the next INSERT into [files] hands out. *)
Definition next_file_id (c : conn) : Z :=
  fold_right Z.max (files_seq c) (map file_id (files c)) + 1.

End Engine.

(** The triple a row of [files] is identified by, and the invariant that
    no two rows share it. *)
Definition triple (r : file_row) : sqlval * sqlval * sqlval :=
  (talk_id r, file_type r, file_url r).

Definition files_unique (c : conn) : Prop := NoDup (map triple (files c)).

Definition rows_with (t : sqlval * sqlval * sqlval) (c : conn) : list file_row :=
  List.filter (fun r => bool_decide (triple r = t)) (files c).

End Catalog.

(** ** The web: asset fetcher and page scrapers *)

Module Web.

(** File contents and chunks are [bytes]; a Rocq [string] is a list of
    8-bit characters. *)
Abbreviation bytes := string.

Inductive request :=
| HEAD (url : string)
| GET (url : string).

(** The lines [download_file] prints. *)
Inductive message :=
| AlreadyComplete (dest_path : string)  (* Datei bereits vollstaendig vorhanden *)
| ReloadExisting (dest_path : string)   (* Datei existiert, wird aber neu geladen *)
| Downloading (url dest_path : string)  (* Lade herunter *)
| SizeWarning (dest_path : string)      (* Warnung: ... andere Groesse als erwartet *)
| DownloadDone (dest_path : string)     (* Download erfolgreich abgeschlossen *)
| DownloadFailed (url : string)         (* Fehler beim Herunterladen *)
| ReleasePageFailed (url : string)      (* Fehler beim Laden der release_url *)
| ListingFailed (url : string).         (* Fehler beim Scrapen der Release-URL *)

(** What the script can observe of its surroundings: the regular files on
    disk, by path; what it has printed; the requests it has sent.
    Directories are not tracked: [mkdir(parents=True, exist_ok=True)] only
    creates directories.  The operations on files are taken to succeed: an
    [OSError] (a directory in the way, a missing permission, a full disk)
    is outside this model, which follows a call as far as the file system
    lets it go. *)
Record world := World {
  fs : gmap string bytes;
  stdout : list message;
  sent : list request
}.

(** What the remote side answers.  A HEAD request fails or yields a status
    and, possibly, a [Content-Length] header.  A streamed GET request fails
    or yields a status and the chunks [iter_content] delivers; [broken]
    says that the stream raises after the last of them instead of ending. *)
Inductive head_outcome :=
| HeadFailed
| HeadResponse (status_code : Z) (content_length : option string).

Inductive get_outcome :=
| GetFailed
| GetResponse (status_code : Z) (chunks : list bytes) (broken : bool).

(** A plain GET request fails or yields a status and the decoded body. *)
Inductive page_outcome :=
| PageFailed
| PageResponse (status_code : Z) (text : string).

Record network := Network {
  head_of : string -> head_outcome;
  get_of : string -> get_outcome;
  page_of : string -> page_outcome
}.

(** The parse tree BeautifulSoup builds, as far as the script looks at it:
    a tag has a name, its class tokens (none when the attribute is absent),
    its [href] attribute and its children. *)
Inductive node :=
| Tag (name : string) (class_ : list string) (href : option string)
      (children : list node)
| NavigableString (text : string).

(** [tag.descendants]: document order. *)
Fixpoint descendants (n : node) : list node :=
  match n with
  | Tag _ _ _ children => flat_map (fun c => c :: descendants c) children
  | NavigableString _ => []
  end.

Definition name_is (name : string) (n : node) : bool :=
  match n with
  | Tag name' _ _ _ => String.eqb name' name
  | NavigableString _ => false
  end.

Definition classes (n : node) : list string :=
  match n with
  | Tag _ class_ _ _ => class_
  | NavigableString _ => []
  end.

(** [tag.get('href')] *)
Definition get_href (n : node) : option string :=
  match n with
  | Tag _ _ href _ => href
  | NavigableString _ => None
  end.

(** The keyword [class_=value] of a search: a tag matches when one of its
    class tokens is [value], or when its tokens joined by single blanks
    spell [value]. *)
Definition class_matches (value : string) (n : node) : bool :=
  existsb (String.eqb value) (classes n)
  || String.eqb (String.concat " " (classes n)) value.

(** [tag.find_all(name, ...)] and [tag.find(name, ...)] with a further
    test on the tag. *)
Definition find_all (root : node) (name : string) (test : node -> bool)
  : list node :=
  List.filter (fun n => name_is name n && test n) (descendants root).

Definition find (root : node) (name : string) (test : node -> bool)
  : option node :=
  head (find_all root name test).

Definition anything (n : node) : bool := true.

(** [Response.raise_for_status] raises for the status codes 400 to 599,
    and [Response.ok] tells whether it would not. *)
Definition is_error (status_code : Z) : bool :=
  (400 <=? status_code) && (status_code <? 600).

Definition is_request_exception (e : exn) : bool :=
  match e with
  | RequestException => true
  | _ => false
  end.

Section Requests.

(** [int(s)] on a header value; [None] stands for [ValueError]. *)
Variable int_of_str : string -> option Z.

Variable net : network.

Definition print (m : message) : M world unit :=
  fun w => (Return tt, World (fs w) (stdout w ++ [m]) (sent w)).

Definition send (r : request) : M world unit :=
  fun w => (Return tt, World (fs w) (stdout w) (sent w ++ [r])).

Definition set_fs (f : gmap string bytes) : M world unit :=
  fun w => (Return tt, World f (stdout w) (sent w)).

(** [path.exists()] *)
Definition path_exists (path : string) : M world bool :=
  w <- get_state ;; ret (bool_decide (is_Some (fs w !! path))).

(** [path.stat().st_size] *)
Definition st_size (path : string) : M world Z :=
  w <- get_state ;;
  match fs w !! path with
  | Some content => ret (Z.of_nat (String.length content))
  | None => raise FileNotFoundError
  end.

(** [path.unlink()] *)
Definition unlink (path : string) : M world unit :=
  w <- get_state ;;
  match fs w !! path with
  | Some _ => set_fs (delete path (fs w))
  | None => raise FileNotFoundError
  end.

(** [open(path, 'wb')]: the file is created, or emptied. *)
Definition open_wb (path : string) : M world unit :=
  w <- get_state ;; set_fs (<[path := ""]> (fs w)).

(** [f.write(chunk)] on the file opened at [path]. *)
Definition write (path : string) (chunk : bytes) : M world unit :=
  w <- get_state ;;
  set_fs (alter (fun content => content +:+ chunk) path (fs w)).

(** [requests.head(url, allow_redirects=True, timeout=REQUEST_TIMEOUT)] *)
Definition requests_head (url : string) : M world (Z * option string) :=
  send (HEAD url) ;;
  match head_of net url with
  | HeadFailed => raise RequestException
  | HeadResponse status_code content_length => ret (status_code, content_length)
  end.

(** [requests.get(url, stream=True, timeout=REQUEST_TIMEOUT)] *)
Definition requests_get (url : string) : M world (Z * list bytes * bool) :=
  send (GET url) ;;
  match get_of net url with
  | GetFailed => raise RequestException
  | GetResponse status_code chunks broken => ret (status_code, chunks, broken)
  end.

Definition raise_for_status (status_code : Z) : M world unit :=
  if is_error status_code then raise RequestException else ret tt.

(** [if expected_size] on [None] or an int. *)
Definition known (expected_size : option Z) : bool :=
  match expected_size with
  | Some n => negb (n =? 0)
  | None => false
  end.

(** [st_size == expected_size] and [st_size != expected_size] *)
Definition size_is (size : Z) (expected_size : option Z) : bool :=
  match expected_size with
  | Some n => size =? n
  | None => false
  end.

Definition download_file (url dest_path : string) : M world bool :=
  (* dest_path.parent.mkdir(parents=True, exist_ok=True) *)
  expected_size <-
    try_except
      (head_resp <- requests_head url ;;
       let '(status_code, content_length) := head_resp in
       if negb (is_error status_code) then
         match content_length with
         | Some value => ret (int_of_str value)
         | None => ret None
         end
       else ret None)
      is_request_exception
      (ret None) ;;
  complete <-
    (if known expected_size then
       there <- path_exists dest_path ;;
       if there : bool then
         size <- st_size dest_path ;; ret (size_is size expected_size)
       else ret false
     else ret false) ;;
  if complete : bool then
    print (AlreadyComplete dest_path) ;;
    ret true
  else
    there <- path_exists dest_path ;;
    (if there : bool then
       print (ReloadExisting dest_path) ;;
       unlink dest_path
     else ret tt) ;;
    print (Downloading url dest_path) ;;
    try_except
      (r <- requests_get url ;;
       let '(status_code, chunks, broken) := r in
       raise_for_status status_code ;;
       open_wb dest_path ;;
       for_each chunks
         (fun chunk =>
            if String.eqb chunk "" then ret tt else write dest_path chunk) ;;
       (if broken : bool then raise RequestException else ret tt) ;;
       mismatch <-
         (if known expected_size then
            size <- st_size dest_path ;; ret (negb (size_is size expected_size))
          else ret false) ;;
       if mismatch : bool then
         print (SizeWarning dest_path) ;;
         ret true
       else
         print (DownloadDone dest_path) ;;
         ret true)
      is_request_exception
      (print (DownloadFailed url) ;;
       there <- path_exists dest_path ;;
       (if there : bool then unlink dest_path else ret tt) ;;
       ret false).

(** *** Notions the statements about [download_file] are phrased with *)

(** The expected size the probe arrives at. *)
Definition expected_size_of (o : head_outcome) : option Z :=
  match o with
  | HeadFailed => None
  | HeadResponse status_code content_length =>
      if is_error status_code then None
      else match content_length with
           | Some value => int_of_str value
           | None => None
           end
  end.

(** The body a list of chunks amounts to. *)
Definition joined (chunks : list bytes) : bytes :=
  fold_right String.append "" chunks.

(** The skip rule of [download_file]. *)
Definition already_complete (expected_size : option Z) (dest_path : string)
    (w : world) : bool :=
  known expected_size &&
  match fs w !! dest_path with
  | Some content => size_is (Z.of_nat (String.length content)) expected_size
  | None => false
  end.

(** The world in which the transfer starts: the old file is gone. *)
Definition cleared (url dest_path : string) (w : world) : world :=
  World (delete dest_path (fs w))
    (stdout w
     ++ (if bool_decide (is_Some (fs w !! dest_path))
         then [ReloadExisting dest_path] else [])
     ++ [Downloading url dest_path])
    (sent w ++ [HEAD url; GET url]).

Definition said (m : message) (w : world) : world :=
  World (fs w) (stdout w ++ [m]) (sent w).

(** *** The page scrapers *)

(** [s.lower()], [s.strip()] and [BeautifulSoup(text, 'html.parser')]. *)
Variable lower : string -> string.
Variable strip : string -> string.
Variable html_parser : string -> node.

(** [requests.get(url, timeout=REQUEST_TIMEOUT)] *)
Definition requests_get_page (url : string) : M world (Z * string) :=
  send (GET url) ;;
  match page_of net url with
  | PageFailed => raise RequestException
  | PageResponse status_code text => ret (status_code, text)
  end.

(** [tag.get_text(separator, strip=True)]: the strings below the tag,
    stripped, the empty ones dropped, joined. *)
Definition strings (n : node) : list string :=
  flat_map (fun d => match d with
                     | NavigableString text => [text]
                     | Tag _ _ _ _ => []
                     end) (descendants n).

Definition get_text (separator : string) (n : node) : string :=
  String.concat separator
    (List.filter (fun t => negb (String.eqb t "")) (map strip (strings n))).

(** The dict [parse_release_page] returns; its four keys are fixed. *)
Record release_info := ReleaseInfo {
  authors : string;
  description : string;
  video_hd_url : option string;
  audio_urls : list (string * string)
}.

(** [f"{language}"] for [None] or a str *)
Definition format (language : option string) : string :=
  match language with
  | Some c => c
  | None => "None"
  end.

(** The body of the loop over the audio buttons, up to the [append]. *)
Definition audio_filetype (class_ : list string) (href : string) : string :=
  let language :=
    fold_left
      (fun language c =>
         if existsb (String.eqb c) ["deu"; "eng"; "fra"] then Some c
         else language)
      class_ None in
  if str_in ".mp3" href then "audio_" +:+ format language +:+ "_mp3"
  else if str_in ".opus" href then "audio_" +:+ format language +:+ "_opus"
  else "audio_" +:+ format language +:+ "_other".

Definition is_hd_link (n : node) : bool :=
  match get_href n with
  | Some x => negb (String.eqb x "") && str_in "h264-hd" x && endswith x ".mp4"
  | None => false
  end.

Definition parse_release_page (release_url : string) : M world release_info :=
  let result := ReleaseInfo "" "" None [] in
  fetched <-
    try_except
      (resp <- requests_get_page release_url ;;
       let '(status_code, text) := resp in
       raise_for_status status_code ;;
       ret (Some text))
      is_request_exception
      (print (ReleasePageFailed release_url) ;; ret None) ;;
  match fetched with
  | None => ret result
  | Some text =>
      let soup := html_parser text in
      let authors :=
        match find soup "p" (class_matches "persons") with
        | Some persons_p =>
            String.concat ", " (map (get_text "") (find_all persons_p "a" anything))
        | None => authors result
        end in
      let description :=
        match find soup "p" (class_matches "description") with
        | Some desc_p => get_text (String "010" "") desc_p
        | None => description result
        end in
      let video_hd_url :=
        match find soup "a" is_hd_link with
        | Some hd_btn => get_href hd_btn
        | None => video_hd_url result
        end in
      let audio_btns :=
        find_all soup "a" (class_matches "btn btn-default download audio") in
      let audio_urls :=
        fold_left
          (fun audio_urls a =>
             match get_href a with
             | Some href =>
                 if String.eqb href "" then audio_urls
                 else audio_urls ++ [(audio_filetype (classes a) href, href)]
             | None => audio_urls
             end)
          audio_btns (audio_urls result) in
      ret (ReleaseInfo authors description video_hd_url audio_urls)
  end.

Definition has_href (n : node) : bool :=
  match get_href n with
  | Some _ => true
  | None => false
  end.

(** The loop of [get_release_url_from_website] over the event previews;
    [Return None] when it runs to its end. *)
Fixpoint first_match (talk_title : pyval) (base_url : string)
    (event_previews : list node) : result (option string) :=
  match event_previews with
  | [] => Return None
  | preview :: rest =>
      match find preview "div" (class_matches "caption") with
      | None => first_match talk_title base_url rest
      | Some caption =>
          match find caption "h3" anything with
          | None => first_match talk_title base_url rest
          | Some h3_tag =>
              match find h3_tag "a" has_href with
              | None => first_match talk_title base_url rest
              | Some a_tag =>
                  match get_href a_tag with
                  | None => Raise (KeyError "href")
                  | Some relative_href =>
                      let link_text := get_text "" a_tag in
                      match talk_title with
                      | PStr title =>
                          if str_in (lower title) (lower link_text)
                          then Return (Some (base_url +:+ relative_href))
                          else first_match talk_title base_url rest
                      | _ => Raise AttributeError
                      end
                  end
              end
          end
      end
  end.

Definition get_release_url_from_website (talk_title : pyval)
  : M world (option string) :=
  let base_url := "https://media.ccc.de" in
  let index_url := base_url +:+ "/c/38c3" in
  try_except
    (resp <- requests_get_page index_url ;;
     let '(status_code, text) := resp in
     raise_for_status status_code ;;
     let soup := html_parser text in
     lift (first_match talk_title base_url
             (find_all soup "div" (class_matches "event-preview"))))
    is_request_exception
    (print (ListingFailed index_url) ;; ret None).

(** *** Notions the statements about the scrapers are phrased with *)

(** The display link of an event preview: target and text of the first
    link with an [href] in the first [h3] of the first caption. *)
Definition display_link (preview : node) : option (string * string) :=
  caption ← find preview "div" (class_matches "caption");
  h3_tag ← find caption "h3" anything;
  a_tag ← find h3_tag "a" has_href;
  relative_href ← get_href a_tag;
  Some (relative_href, get_text "" a_tag).

(** The entries of a listing, in document order. *)
Definition listing_entries (soup : node) : list (string * string) :=
  omap display_link (find_all soup "div" (class_matches "event-preview")).

(** The case-insensitive substring test of the resolver. *)
Definition title_matches (title : string) (entry : string * string) : bool :=
  str_in (lower title) (lower (snd entry)).

(** The last of the known language codes among the class tokens. *)
Definition last_language (class_ : list string) : option string :=
  last (List.filter (fun c => existsb (String.eqb c) ["deu"; "eng"; "fra"])
          class_).

(** The codec, from what the link target contains. *)
Definition codec_of (href : string) : string :=
  if str_in ".mp3" href then "mp3"
  else if str_in ".opus" href then "opus"
  else "other".

(** What an audio button contributes to [audio_urls]. *)
Definition audio_entry (a : node) : option (string * string) :=
  match get_href a with
  | Some href =>
      if String.eqb href "" then None
      else Some ("audio_" +:+ format (last_language (classes a)) +:+ "_"
                 +:+ codec_of href, href)
  | None => None
  end.

Definition audio_buttons (soup : node) : list node :=
  find_all soup "a" (class_matches "btn btn-default download audio").

(** [s.split(" ")] *)
Fixpoint split_blank (s : string) : list string :=
  match s with
  | EmptyString => [""]
  | String a s' =>
      if Ascii.eqb a " " then "" :: split_blank s'
      else match split_blank s' with
           | t :: ts => String a t :: ts
           | [] => [String a ""]
           end
  end.

(** Class tokens are what is left of the attribute once it is split at
    whitespace: they hold no blank. *)
Definition blank_free (class_ : list string) : Prop :=
  Forall (fun c => str_in " " c = false) class_.

End Requests.

(** *** The same notions, read off the specification *)

(** "the file extension in its target (.mp3 -> mp3, .opus -> opus,
    else -> other)" *)
Definition codec_by_extension (href : string) : string :=
  if endswith href ".mp3" then "mp3"
  else if endswith href ".opus" then "opus"
  else "other".

(** "the absolute URL formed by resolving the entry's (possibly relative)
    link target against the listing's origin": reference resolution as
    RFC 3986 defines it, sections 5.2 and 5.3, on the five components of
    appendix B. *)
Record reference := Reference {
  ref_scheme : option string;
  ref_authority : option string;
  ref_path : string;
  ref_query : option string;
  ref_fragment : option string
}.

Definition one_of (chars : string) (a : ascii) : bool :=
  existsb (Ascii.eqb a) (list_ascii_of_string chars).

(** What stands in front of the first character of [s] that satisfies
    [stop], and the rest of [s] from that character on. *)
Fixpoint break (stop : ascii -> bool) (s : string) : string * string :=
  match s with
  | EmptyString => ("", "")
  | String a s' =>
      if stop a then ("", s)
      else let '(front, rest) := break stop s' in (String a front, rest)
  end.

(** The parse of appendix B.  A scheme is a non-empty run of characters
    other than [:], [/], [?] and [#] with a colon behind it; an authority
    follows two slashes and ends in front of the next [/], [?] or [#];
    the path ends in front of the first [?] or [#]; a query follows a
    [?] and ends in front of the first [#]; a fragment follows a [#]. *)
Definition split_scheme (s : string) : option string * string :=
  match break (one_of ":/?#") s with
  | (String _ _ as front, String c rest) =>
      if Ascii.eqb c ":" then (Some front, rest) else (None, s)
  | _ => (None, s)
  end.

Definition split_authority (s : string) : option string * string :=
  match s with
  | String a (String b s') =>
      if Ascii.eqb a "/" && Ascii.eqb b "/"
      then let '(host, rest) := break (one_of "/?#") s' in (Some host, rest)
      else (None, s)
  | _ => (None, s)
  end.

Definition split_query (s : string) : option string * string :=
  match s with
  | String c s' =>
      if Ascii.eqb c "?"
      then let '(q, rest) := break (one_of "#") s' in (Some q, rest)
      else (None, s)
  | EmptyString => (None, s)
  end.

Definition fragment_of (s : string) : option string :=
  match s with
  | String c f => if Ascii.eqb c "#" then Some f else None
  | EmptyString => None
  end.

Definition parse (s : string) : reference :=
  let '(scheme, s1) := split_scheme s in
  let '(authority, s2) := split_authority s1 in
  let '(path, s3) := break (one_of "?#") s2 in
  let '(query, s4) := split_query s3 in
  Reference scheme authority path query (fragment_of s4).

(** The segments of a path: what stands between its slashes. *)
Fixpoint segments (p : string) : list string :=
  match p with
  | EmptyString => [""]
  | String a p' =>
      if Ascii.eqb a "/" then "" :: segments p'
      else match segments p' with
           | seg :: segs => String a seg :: segs
           | [] => [String a ""]
           end
  end.

Definition is_dot (seg : string) : bool :=
  String.eqb seg "." || String.eqb seg "..".

(** The output buffer of 5.2.4 without its last segment and the slash in
    front of it. *)
Fixpoint drop_last_segment (out : string) : string :=
  match out with
  | EmptyString => ""
  | String a out' =>
      if str_in "/" out' then String a (drop_last_segment out') else ""
  end.

(** 5.2.4, steps B, C and E, on an input that starts with a slash, given
    by the segments behind its slashes. *)
Fixpoint remove_dots_rooted (out : string) (input : list string) : string :=
  match input with
  | [] => out
  | seg :: rest =>
      if String.eqb seg "." then
        match rest with
        | [] => out +:+ "/"
        | _ :: _ => remove_dots_rooted out rest
        end
      else if String.eqb seg ".." then
        match rest with
        | [] => drop_last_segment out +:+ "/"
        | _ :: _ => remove_dots_rooted (drop_last_segment out) rest
        end
      else remove_dots_rooted (out +:+ "/" +:+ seg) rest
  end.

(** 5.2.4 from the start: steps A and D on a first segment without a
    slash in front, then the steps above. *)
Fixpoint remove_dots_from (input : list string) : string :=
  match input with
  | [] => ""
  | first :: rest =>
      if is_dot first then
        match rest with
        | [] => ""
        | _ :: _ => remove_dots_from rest
        end
      else remove_dots_rooted first rest
  end.

Definition remove_dot_segments (p : string) : string :=
  remove_dots_from (segments p).

(** 5.2.3 *)
Definition merge (base : reference) (p : string) : string :=
  match ref_authority base, ref_path base with
  | Some _, EmptyString => "/" +:+ p
  | _, base_path =>
      if str_in "/" base_path
      then drop_last_segment base_path +:+ "/" +:+ p
      else p
  end.

(** 5.2.2, for a strict parser *)
Definition resolve (base r : reference) : reference :=
  match ref_scheme r, ref_authority r with
  | Some _, _ =>
      Reference (ref_scheme r) (ref_authority r)
        (remove_dot_segments (ref_path r)) (ref_query r) (ref_fragment r)
  | None, Some _ =>
      Reference (ref_scheme base) (ref_authority r)
        (remove_dot_segments (ref_path r)) (ref_query r) (ref_fragment r)
  | None, None =>
      if String.eqb (ref_path r) "" then
        Reference (ref_scheme base) (ref_authority base) (ref_path base)
          (match ref_query r with
           | Some q => Some q
           | None => ref_query base
           end)
          (ref_fragment r)
      else
        Reference (ref_scheme base) (ref_authority base)
          (if String.prefix "/" (ref_path r)
           then remove_dot_segments (ref_path r)
           else remove_dot_segments (merge base (ref_path r)))
          (ref_query r) (ref_fragment r)
  end.

(** 5.3 *)
Definition recompose (r : reference) : string :=
  match ref_scheme r with Some scheme => scheme +:+ ":" | None => "" end
  +:+ match ref_authority r with Some host => "//" +:+ host | None => "" end
  +:+ ref_path r
  +:+ match ref_query r with Some q => "?" +:+ q | None => "" end
  +:+ match ref_fragment r with Some f => "#" +:+ f | None => "" end.

Definition resolve_against (origin target : string) : string :=
  recompose (resolve (parse origin) (parse target)).

(** A link target that is a path from the root, possibly with a query and
    a fragment behind it: it starts with one slash, not two, and no
    segment of its path is [.] or [..]. *)
Definition plain_root_path (target : string) : bool :=
  String.prefix "/" target && negb (String.prefix "//" target)
  && forallb (fun seg => negb (is_dot seg))
       (segments (fst (break (one_of "?#") target))).

End Web.

(** ** Stand-ins for the library functions, for the concrete runs *)

Module Sample.

Import Catalog Web.

Definition digit (a : ascii) : option Z :=
  let n := Z.of_N (N_of_ascii a) in
  if (48 <=? n) && (n <=? 57) then Some (n - 48) else None.

Fixpoint digits (s : string) (acc : Z) : option Z :=
  match s with
  | EmptyString => Some acc
  | String a s' =>
      match digit a with
      | Some d => digits s' (10 * acc + d)
      | None => None
      end
  end.

(** A decimal literal: an optional sign and at least one digit. *)
Definition decimal (s : string) : option Z :=
  match s with
  | EmptyString => None
  | String "-" (String _ _ as s') => Z.opp <$> digits s' 0
  | String "+" (String _ _ as s') => digits s' 0
  | _ => digits s 0
  end.

(** [int(s)], on decimal literals. *)
Definition int_of_str : string -> option Z := decimal.

(** INTEGER affinity on text: a decimal literal that fits 64 bits becomes
    that integer, any other text stays text. *)
Definition numeric_affinity (s : string) : sqlval :=
  match decimal s with
  | Some z => if int64 z then SqlInt z else SqlText s
  | None => SqlText s
  end.

(** No rowid is ever picked at random. *)
Definition random_rowid (t : gmap Z talk_row) : option Z := None.

(** [s.lower()], on ASCII letters. *)
Definition lower_ascii (a : ascii) : ascii :=
  let n := N_of_ascii a in
  if ((65 <=? n) && (n <=? 90))%N then ascii_of_N (n + 32) else a.

Fixpoint lower (s : string) : string :=
  match s with
  | EmptyString => EmptyString
  | String a s' => String (lower_ascii a) (lower s')
  end.

(** [s.strip()], on blanks. *)
Fixpoint lstrip (s : string) : string :=
  match s with
  | String " " s' => lstrip s'
  | _ => s
  end.

Fixpoint rstrip (s : string) : string :=
  match s with
  | EmptyString => EmptyString
  | String a s' =>
      match a, rstrip s' with
      | " "%char, EmptyString => EmptyString
      | _, t => String a t
      end
  end.

Definition strip (s : string) : string := rstrip (lstrip s).

(** *** Inputs of the concrete runs *)

(** Two snapshots of talk 1, and one without [mtime]. *)
Definition talk_v5 : dict :=
  list_to_map [("id", PInt 1); ("title", PStr "Talk A");
               ("status", PStr "recorded"); ("mtime", PInt 5)].

Definition talk_v3 : dict :=
  list_to_map [("id", PInt 1); ("title", PStr "Talk A (draft)");
               ("status", PStr "live"); ("mtime", PInt 3)].

Definition talk_v8 : dict :=
  list_to_map [("id", PInt 1); ("title", PStr "Talk A (final)");
               ("status", PStr "released"); ("mtime", PInt 8)].

Definition talk_no_mtime : dict :=
  list_to_map [("id", PInt 1); ("title", PStr "Talk A")].

Definition row_of_talk (title status : string) (a d : sqlval) (mtime : Z)
  : talk_row :=
  TalkRow SqlNull (SqlText title) SqlNull (SqlText status) SqlNull SqlNull
    SqlNull a d (SqlInt mtime).

Definition catalog_of (r : talk_row) : conn := Conn {[ 1 := r ]} [] 0.

(** A catalog whose talk 1 has been enriched. *)
Definition enriched : conn :=
  catalog_of (row_of_talk "Talk A" "released" (SqlText "Alice, Bob")
                (SqlText "All about A.") 5).

(** A server that announces an empty body and then drops the transfer. *)
Definition empty_then_down : network :=
  Network (fun _ => HeadResponse 200 (Some "0"))
          (fun _ => GetFailed)
          (fun _ => PageFailed).

(** A server that announces 10 bytes, and sends 7 of them in two chunks,
    with an empty chunk in between; [cut] tells whether the stream breaks
    after them. *)
Definition short_body (cut : bool) : network :=
  Network (fun _ => HeadResponse 200 (Some "10"))
          (fun _ => GetResponse 200 ["abcd"; ""; "efg"] cut)
          (fun _ => PageFailed).

(** A server that announces an empty body and sends three bytes. *)
Definition empty_announced : network :=
  Network (fun _ => HeadResponse 200 (Some "0"))
          (fun _ => GetResponse 200 ["abc"] false)
          (fun _ => PageFailed).

Definition disk (dest_path : string) (content : bytes) : world :=
  World {[ dest_path := content ]} [] [].

(** A server of pages: every page parses to [soup]. *)
Definition pages : network :=
  Network (fun _ => HeadFailed) (fun _ => GetFailed)
          (fun _ => PageResponse 200 "<html>").

Definition document (children : list node) : node :=
  Tag "[document]" [] None children.

Definition listing (target text : string) : node :=
  document
    [Tag "div" ["event-preview"] None
       [Tag "div" ["caption"] None
          [Tag "h3" [] None
             [Tag "a" [] (Some target) [NavigableString text]]]]].

Definition audio_button (class_ : list string) (target : string) : node :=
  Tag "a" class_ (Some target) [NavigableString "Download"].

(** A release page that names two persons and has no description. *)
Definition persons_only : node :=
  document
    [Tag "p" ["persons"] None
       [Tag "a" [] (Some "/search?p=Alice") [NavigableString " Alice "];
        NavigableString ", ";
        Tag "a" [] (Some "/search?p=Bob") [NavigableString "Bob"]]].

Definition nowhere : world := World ∅ [] [].

End Sample.

(** ** The orchestrator: [main] *)

Module Main.

Import Catalog Web.

(** What the loop of a run works on: the open database, given by its two
    tables, and the world.  The database is the file [DB_FILE] in the
    working directory: the [fs] of the world holds the other files, so
    that a write to the database shows in [db] and not in [fs]. *)
Record process := Process {
  db : conn;
  env : world
}.

(** What stops a run before its end: an exception of the kinds above that
    nothing catches; the [ValueError] of [int] on a str that is no number;
    a download aimed at a path that names no regular file, where the run
    is not followed any further. *)
Inductive halt :=
| Raised (e : exn)
| ValueError
| NotAFile (path : string).

(** How [main] ends.  [main] prints three lines of its own: the first
    line of every run, then, after what the calls below have printed,
    either the error line of a failed feed ([FeedFailed]) or the closing
    line ([Finished]). *)
Inductive ending :=
| Finished
| FeedFailed
| Halted (h : halt).

(** Code of [main]: a state, and a value or a halt. *)
Definition Run (A : Type) : Type := process -> (A + halt) * process.

Definition done {A} (a : A) : Run A := fun s => (inl a, s).
Definition stop {A} (h : halt) : Run A := fun s => (inr h, s).
Definition next {A B} (c : Run A) (k : A -> Run B) : Run B :=
  fun s =>
    match c s with
    | (inl a, s') => k a s'
    | (inr h, s') => (inr h, s')
    end.

(** An expression that may raise, a call that works on the connection, and
    one that works on the world; an exception that comes out of them is
    not caught. *)
Definition eval {A} (r : result A) : Run A :=
  match r with
  | Return a => done a
  | Raise e => stop (Raised e)
  end.

Definition on_db {A} (c : M conn A) : Run A :=
  fun s =>
    match c (db s) with
    | (Return a, c') => (inl a, Process c' (env s))
    | (Raise e, c') => (inr (Raised e), Process c' (env s))
    end.

Definition on_env {A} (c : M world A) : Run A :=
  fun s =>
    match c (env s) with
    | (Return a, w') => (inl a, Process (db s) w')
    | (Raise e, w') => (inr (Raised e), Process (db s) w')
    end.

(** [for x in l: body x] *)
Fixpoint each {A} (l : list A) (body : A -> Run unit) : Run unit :=
  match l with
  | [] => done tt
  | x :: l' => next (body x) (fun _ => each l' body)
  end.

(** [s.split(sep)] for a separator of one character *)
Fixpoint split (sep : ascii) (s : string) : list string :=
  match s with
  | EmptyString => [""]
  | String a s' =>
      if Ascii.eqb a sep then "" :: split sep s'
      else match split sep s' with
           | t :: ts => String a t :: ts
           | [] => [String a ""]
           end
  end.

(** [url.split("/")[-1]] *)
Definition last_segment (url : string) : string :=
  default "" (last (split "/" url)).

(** [str(v)] for the url [requests] is handed *)
Definition str (v : pyval) : string :=
  match v with
  | PNone => "None"
  | PInt z => pretty z
  | PStr s => s
  end.

(** [status in ["recorded", "released"]] *)
Definition recorded_or_released (status : pyval) : bool :=
  match status with
  | PStr s => String.eqb s "recorded" || String.eqb s "released"
  | _ => false
  end.

Definition DB_FILE : string := "relive_data.sqlite".
Definition JSON_URL : string := "https://relive.c3voc.de/relive/38c3/index.json".
Definition MUXED_BASE : string := "https://cdn.c3voc.de/relive/38c3/".

(** [str(DOWNLOAD_DIR)] for [Path("./download/")] *)
Definition DOWNLOAD_DIR : string := "download".

(** [init_db()], on the database a run finds: [None] when the file
    [DB_FILE] is not there, else its tables.  [sqlite3.connect] creates
    the file when it is missing, and [CREATE TABLE IF NOT EXISTS] the two
    tables, empty; tables that are there are left as they are. *)
Definition connect (database : option conn) : conn :=
  match database with
  | Some c => c
  | None => init_db
  end.

(** [folder / name] for a name without [/], as a POSIX path: [None] when
    the result is no path below [folder] that can name a regular file,
    that is for the names [""] and ["."], which give [folder] itself,
    [".."], and a name with a NUL in it. *)
Definition child (folder name : string) : option string :=
  if String.eqb name "" || String.eqb name "." || String.eqb name ".."
     || str_in (String "000" "") name
  then None
  else Some (folder +:+ "/" +:+ name).

Section Pass.

Variable numeric_affinity : string -> sqlval.
Variable random_rowid : gmap Z talk_row -> option Z.
Variable int_of_str : string -> option Z.
Variable net : network.
Variable lower : string -> string.
Variable strip : string -> string.
Variable html_parser : string -> node.

(** [r.json()] on the body of the feed: the entries of the JSON array, each
    a JSON object; [None] when the body is no JSON.  The feed is taken to
    be what the script expects, an array of objects, and the values the
    script reads to be null, integers or strings. *)
Variable json_loads : string -> option (list dict).

(** [int(v)] *)
Definition int (v : pyval) : Run Z :=
  match v with
  | PInt z => done z
  | PStr s =>
      match int_of_str s with
      | Some z => done z
      | None => stop ValueError
      end
  | PNone => stop (Raised TypeError)
  end.

(** The part of the loop body for one audio asset. *)
Definition fetch_audio (talk_id : Z) (dest_folder : string)
    (asset : string * string) : Run unit :=
  let '(filetype, url) := asset in
  let filename := last_segment url in
  match child dest_folder filename with
  | None => stop (NotAFile (dest_folder +:+ "/" +:+ filename))
  | Some audio_path =>
      next (on_env (download_file int_of_str net url audio_path))
        (fun success_audio =>
           if success_audio : bool then
             on_db (insert_or_ignore_file numeric_affinity random_rowid
                      talk_id filetype url audio_path)
           else done tt)
  end.

(** The body of the loop of [main]. *)
Definition process_entry (entry : dict) : Run unit :=
  next (eval (getitem entry "id")) (fun id =>
  next (int id) (fun talk_id =>
  let talk_data : dict :=
    list_to_map
      [ ("id", PInt talk_id);
        ("guid", get entry "guid");
        ("title", get entry "title");
        ("room", get entry "room");
        ("status", get entry "status");
        ("start", get entry "start");
        ("duration", get entry "duration");
        ("release_url", get entry "release_url");
        ("mtime", get_or entry "mtime" (PInt 0)) ] in
  next
    (if recorded_or_released (get talk_data "status")
        && negb (truthy (get talk_data "release_url"))
     then
       next (on_env (get_release_url_from_website net lower strip html_parser
                       (get talk_data "title")))
         (fun scraped_url =>
            match scraped_url with
            | Some url =>
                if String.eqb url "" then done talk_data
                else done (<["release_url" := PStr url]> talk_data)
            | None => done talk_data
            end)
     else done talk_data) (fun talk_data =>
  next (on_db (upsert_talk numeric_affinity random_rowid talk_data)) (fun _ =>
  let dest_folder := DOWNLOAD_DIR +:+ "/" +:+ pretty talk_id in
  next
    (if recorded_or_released (get talk_data "status") then
       let muxed_url := MUXED_BASE +:+ pretty talk_id +:+ "/muxed.mp4" in
       let muxed_path := dest_folder +:+ "/muxed.mp4" in
       next (on_env (download_file int_of_str net muxed_url muxed_path))
         (fun success_muxed =>
            if success_muxed : bool then
              on_db (insert_or_ignore_file numeric_affinity random_rowid
                       talk_id "muxed" muxed_url muxed_path)
            else done tt)
     else done tt) (fun _ =>
  next
    (let thumbnail_url := get entry "thumbnail" in
     if truthy thumbnail_url then
       match thumbnail_url with
       | PStr url =>
           let thumbnail_url :=
             if String.prefix "//" url then "https:" +:+ url else url in
           let thumb_path := dest_folder +:+ "/thumb.jpg" in
           next (on_env (download_file int_of_str net thumbnail_url thumb_path))
             (fun success_thumb =>
                if success_thumb : bool then
                  on_db (insert_or_ignore_file numeric_affinity random_rowid
                           talk_id "thumbnail" thumbnail_url thumb_path)
                else done tt)
       | _ => stop (Raised AttributeError)
       end
     else done tt) (fun _ =>
  if recorded_or_released (get talk_data "status")
     && truthy (get talk_data "release_url")
  then
    next (on_env (parse_release_page net strip html_parser
                    (str (get talk_data "release_url"))))
      (fun extra_info =>
    next (on_db (update_enrichment numeric_affinity random_rowid talk_id
                   (authors extra_info) (description extra_info)))
      (fun _ =>
    next
      (match video_hd_url extra_info with
       | Some hd_url =>
           if String.eqb hd_url "" then done tt
           else
             let hd_path := dest_folder +:+ "/video_hd.mp4" in
             next (on_env (download_file int_of_str net hd_url hd_path))
               (fun success_hd =>
                  if success_hd : bool then
                    on_db (insert_or_ignore_file numeric_affinity random_rowid
                             talk_id "video_hd" hd_url hd_path)
                  else done tt)
       | None => done tt
       end) (fun _ =>
    each (audio_urls extra_info) (fetch_audio talk_id dest_folder))))
  else done tt)))))).

(** [main], on the database and the world it finds. *)
Definition main (database : option conn) (w : world) : ending * process :=
  let conn := connect database in
  let s1 :=
    Process conn (World (fs w) (stdout w) (sent w ++ [GET JSON_URL])) in
  match page_of net JSON_URL with
  | PageFailed => (FeedFailed, s1)
  | PageResponse status_code text =>
      if is_error status_code then (FeedFailed, s1)
      else
        match json_loads text with
        | None => (FeedFailed, s1)
        | Some data =>
            match each data process_entry s1 with
            | (inl _, s') => (Finished, s')
            | (inr h, s') => (Halted h, s')
            end
        end
  end.

End Pass.

(** *** Notions the statements about [main] are phrased with *)

(** The catalog has only grown: every talk is still there, and the rows of
    [files] are still there, unchanged and in place, in front of what has
    been added. *)
Definition grown (c c' : conn) : Prop :=
  dom (talks c) ⊆ dom (talks c') /\ files c `prefix_of` files c'.

(** The id [int(entry["id"])] arrives at, if it does. *)
Definition id_of (int_of_str : string -> option Z) (entry : dict) : option Z :=
  match entry !! "id" with
  | Some (PInt z) => Some z
  | Some (PStr s) => int_of_str s
  | _ => None
  end.

(** A line by which [download_file] reports the file at [path] as there. *)
Definition success_line (path : string) (m : message) : Prop :=
  m = AlreadyComplete path \/ m = SizeWarning path \/ m = DownloadDone path.

(** A row of [files] vouched for by such a line among [lines]. *)
Definition vouched (lines : list message) (row : file_row) : Prop :=
  exists path m,
    local_path row = SqlText path /\ m ∈ lines /\ success_line path m.

(** What holds between a state of a run and every later one: the catalog
    has only grown, and has kept its one row per triple; the lines printed
    in between vouch for the rows that have come to [files]; the files
    outside [download/] are as they were. *)
Definition later (s s' : process) : Prop :=
  grown (db s) (db s') /\
  (files_unique (db s) -> files_unique (db s')) /\
  (exists lines,
     stdout (env s') = stdout (env s) ++ lines /\
     forall row, row ∈ files (db s') ->
       row ∈ files (db s) \/ vouched lines row) /\
  (forall path, String.prefix "download/" path = false ->
     fs (env s') !! path = fs (env s) !! path).

(** A piece of code all of whose runs lead to a later state. *)
Definition moves_on {A} (c : Run A) : Prop :=
  forall s r s', c s = (r, s') -> later s s'.

End Main.

(** ** Notions for the statements about frames *)

Module Frames.

Import Catalog.

(** At most the row of one rowid of [talks] has been written, and nothing
    else has changed. *)
Definition one_talk_written (c c' : conn) : Prop :=
  files c' = files c /\ files_seq c' = files_seq c /\
  (talks c' = talks c \/ exists k row, talks c' = <[k := row]> (talks c)).

(** Two rows of [talks] that differ at most in the enrichment columns. *)
Definition same_snapshot (r r' : talk_row) : Prop :=
  guid r' = guid r /\ title r' = title r /\ room r' = room r /\
  status r' = status r /\ start r' = start r /\ duration r' = duration r /\
  release_url r' = release_url r /\ last_mtime r' = last_mtime r.

End Frames.

(** ** More inputs of concrete runs *)

Module Cases.

Import Catalog Web Sample Main.

(** A snapshot of talk 1 whose [mtime] is JSON null. *)
Definition talk_null_mtime : dict :=
  list_to_map [("id", PInt 1); ("title", PStr "Talk A"); ("mtime", PNone)].

(** A server that answers no HEAD request and sends a whole body of seven
    bytes. *)
Definition no_probe : network :=
  Network (fun _ => HeadFailed)
          (fun _ => GetResponse 200 ["abcd"; "efg"] false)
          (fun _ => PageFailed).

(** A server that announces seven bytes and sends them. *)
Definition exact_body : network :=
  Network (fun _ => HeadResponse 200 (Some "7"))
          (fun _ => GetResponse 200 ["abcd"; ""; "efg"] false)
          (fun _ => PageFailed).

(** A release page with an HD video link and one audio button. *)
Definition release_page : node :=
  document
    [Tag "a" ["btn"]
       (Some "https://cdn.media.ccc.de/38c3/talk-a-h264-hd.mp4")
       [NavigableString "HD"];
     audio_button ["btn"; "btn-default"; "download"; "audio"]
       "https://cdn.media.ccc.de/38c3/talk-a.opus"].

(** Three entries of a feed: a recorded talk with release page and
    thumbnail, a talk that is still live, its id a str, and an entry
    without id. *)
Definition recorded_talk : dict :=
  list_to_map
    [("id", PInt 7); ("title", PStr "Talk A"); ("status", PStr "recorded");
     ("release_url", PStr "https://media.ccc.de/v/talk-a");
     ("thumbnail", PStr "//static.media.ccc.de/7.jpg"); ("mtime", PInt 5)].

Definition live_talk : dict :=
  list_to_map [("id", PStr "8"); ("title", PStr "Talk B");
               ("status", PStr "live")].

Definition nameless : dict := list_to_map [("title", PStr "Talk C")].

(** A server that has every page, announces no size and sends three bytes
    for every file. *)
Definition mirror : network :=
  Network (fun _ => HeadResponse 200 None)
          (fun _ => GetResponse 200 ["abc"] false)
          (fun _ => PageResponse 200 "<body>").

(** A decoder that reads every body as the feed [data]. *)
Definition decoded (data : list dict) : string -> option (list dict) :=
  fun _ => Some data.

(** The loop of a first run: a new database and an empty disk. *)
Definition start : process := Process init_db nowhere.

(** [main] and its loop, on [soup] for every page and [data] for the
    feed. *)
Definition main_on (net : network) (soup : node) (data : list dict)
  : option conn -> world -> ending * process :=
  main numeric_affinity random_rowid int_of_str net lower strip
    (fun _ => soup) (decoded data).

Definition entry_on (net : network) (soup : node) : dict -> Run unit :=
  process_entry numeric_affinity random_rowid int_of_str net lower strip
    (fun _ => soup).

End Cases.

(** ** Facts about the monad *)

Section MonadFacts.

Context {S A B : Type}.

Lemma bind_return_inv (c : M S A) (k : A -> M S B) (s s' : S) (b : B) :
  bind c k s = (Return b, s') ->
  exists a s1, c s = (Return a, s1) /\ k a s1 = (Return b, s').
Proof.
  unfold bind. destruct (c s) as [[a|e] s1]; [|discriminate].
  intros H. now exists a, s1.
Qed.

Lemma try_except_return_inv (body handler : M S A) (catches : exn -> bool)
    (s s' : S) (a : A) :
  try_except body catches handler s = (Return a, s') ->
  body s = (Return a, s') \/
  exists e s1, body s = (Raise e, s1) /\ catches e = true
               /\ handler s1 = (Return a, s').
Proof.
  unfold try_except. destruct (body s) as [[a'|e] s1]; [now left|].
  destruct (catches e) eqn:He; [|discriminate].
  intros H. right. now exists e, s1.
Qed.

Lemma bind_eq (c : M S A) (k : A -> M S B) (s s1 : S) (a : A) :
  c s = (Return a, s1) -> bind c k s = k a s1.
Proof. unfold bind. now intros ->. Qed.

Lemma bind_raise (c : M S A) (k : A -> M S B) (s s1 : S) (e : exn) :
  c s = (Raise e, s1) -> bind c k s = (Raise e, s1).
Proof. unfold bind. now intros ->. Qed.

End MonadFacts.

(** ** Facts about the catalog *)

Section CatalogFacts.

Import Catalog.

Variable numeric_affinity : string -> sqlval.
Variable random_rowid : gmap Z talk_row -> option Z.

Local Abbreviation upsert_talk := (upsert_talk numeric_affinity random_rowid).
Local Abbreviation run := (run numeric_affinity random_rowid).
Local Abbreviation execute := (execute numeric_affinity random_rowid).
Local Abbreviation row_of := (row_of numeric_affinity).

Lemma traverse_adapt_raise (l : list pyval) (e : exn) :
  traverse adapt l = Raise e -> e = OverflowError.
Proof.
  induction l as [|v l IH]; simpl; [discriminate|].
  destruct v as [| z |s]; simpl.
  - destruct (traverse adapt l); [discriminate|]. intros [= <-]. now apply IH.
  - destruct (int64 z); [|now intros [= <-]].
    destruct (traverse adapt l); [discriminate|]. intros [= <-]. now apply IH.
  - destruct (traverse adapt l); [discriminate|]. intros [= <-]. now apply IH.
Qed.

Lemma traverse_adapt_snoc (l : list pyval) (v : pyval) :
  traverse adapt (l ++ [v]) =
    match traverse adapt l, adapt v with
    | Return ps, Return p => Return (ps ++ [p])
    | Raise e, _ => Raise e
    | _, Raise e => Raise e
    end.
Proof.
  induction l as [|x l IH]; simpl.
  - now destruct (adapt v).
  - destruct (adapt x) as [y|e]; [|reflexivity].
    rewrite IH. destruct (traverse adapt l) as [ps|e]; [|reflexivity].
    now destruct (adapt v).
Qed.

Lemma traverse_adapt_length (l : list pyval) (ps : list sqlval) :
  traverse adapt l = Return ps -> length ps = length l.
Proof.
  revert ps. induction l as [|x l IH]; simpl; intros ps.
  - now intros [= <-].
  - destruct (adapt x); [|discriminate].
    destruct (traverse adapt l) as [qs|]; [|discriminate].
    intros [= <-]. simpl. f_equal. now apply IH.
Qed.

Lemma run_insert_talk (i : Z) (ps : list sqlval) (c : conn) :
  talks c !! i = None ->
  run INSERT_talk (SqlInt i :: ps) c =
    match row_of ps SqlNull SqlNull with
    | Some r => (Return [], with_talks c (<[i := r]> (talks c)))
    | None => (Raise ProgrammingError, c)
    end.
Proof.
  intros Hi. unfold run, bind, get_state, row_of.
  do 9 (destruct ps as [|? ps]; try reflexivity).
  simpl. now rewrite Hi.
Qed.

Lemma run_update_talk (i : Z) (ps : list sqlval) (c : conn) (old : talk_row) :
  talks c !! i = Some old ->
  run UPDATE_talk (ps ++ [SqlInt i]) c =
    match row_of ps (authors old) (description old) with
    | Some r => (Return [], with_talks c (<[i := r]> (talks c)))
    | None => (Raise ProgrammingError, c)
    end.
Proof.
  intros Hi. unfold run, bind, get_state, row_of.
  do 9 (destruct ps as [|? ps]; try reflexivity).
  - simpl. now rewrite Hi.
  - now destruct ps.
Qed.

Lemma row_of_fields (td : dict) (mtime : pyval) (ps : list sqlval) (a d : sqlval) :
  traverse adapt (fields td mtime) = Return ps -> is_Some (row_of ps a d).
Proof.
  intros H. apply traverse_adapt_length in H. simpl in H.
  do 9 (destruct ps as [|? ps]; try discriminate). now eexists.
Qed.

Lemma bind_lift {A B} (r : result A) (k : A -> M conn B) (c : conn) :
  bind (lift r) k c =
    match r with Return a => k a c | Raise e => (Raise e, c) end.
Proof. now destruct r. Qed.

Lemma bind_execute {B} (stmt : statement) (l : list pyval)
    (k : list (list sqlval) -> M conn B) (c : conn) :
  bind (execute stmt l) k c =
    match traverse adapt l with
    | Raise e => (Raise e, c)
    | Return ps =>
        match run stmt ps c with
        | (Return rows, c') => k rows c'
        | (Raise e, c') => (Raise e, c')
        end
    end.
Proof.
  unfold execute, bind, lift. now destruct (traverse adapt l).
Qed.

Lemma traverse_cons {A B} (f : A -> result B) (x : A) (l : list A) :
  traverse f (x :: l) =
    match f x with
    | Raise e => Raise e
    | Return y =>
        match traverse f l with
        | Raise e => Raise e
        | Return ys => Return (y :: ys)
        end
    end.
Proof. reflexivity. Qed.

Lemma run_select_talk (i : Z) (c : conn) :
  run SELECT_talk [SqlInt i] c =
    match talks c !! i with
    | Some r => (Return [[SqlInt i; last_mtime r]], c)
    | None => (Return [], c)
    end.
Proof.
  unfold run, bind, get_state. cbn [as_rowid integer_affinity].
  now destruct (talks c !! i).
Qed.

(** What [upsert_talk] does with an integer id, path by path. *)
Lemma upsert_talk_new (td : dict) (i : Z) (c : conn) :
  td !! "id" = Some (PInt i) -> talks c !! i = None ->
  upsert_talk td c =
    if int64 i then
      match traverse adapt (fields td (get_or td "mtime" (PInt 0))) with
      | Return ps =>
          match row_of ps SqlNull SqlNull with
          | Some r => (Return tt, with_talks c (<[i := r]> (talks c)))
          | None => (Raise ProgrammingError, c)
          end
      | Raise e => (Raise e, c)
      end
    else (Raise OverflowError, c).
Proof.
  intros Hid Hi. unfold upsert_talk, getitem. rewrite Hid.
  rewrite bind_lift, bind_execute. cbn [traverse adapt].
  destruct (int64 i) eqn:Hr; [|reflexivity].
  rewrite run_select_talk, Hi. cbn [fetchone].
  rewrite bind_lift, bind_execute, traverse_cons. cbn [adapt]. rewrite Hr.
  fold (fields td (get_or td "mtime" (PInt 0))).
  destruct (traverse adapt (fields td (get_or td "mtime" (PInt 0)))) as [ps|e];
    [|reflexivity].
  rewrite run_insert_talk by assumption.
  now destruct (row_of ps SqlNull SqlNull).
Qed.

Lemma upsert_talk_existing (td : dict) (i : Z) (c : conn) (old : talk_row) :
  td !! "id" = Some (PInt i) -> talks c !! i = Some old ->
  upsert_talk td c =
    if int64 i then
      match getitem td "mtime" with
      | Raise e => (Raise e, c)
      | Return mtime =>
          match gt mtime (existing_mtime (last_mtime old)) with
          | Raise e => (Raise e, c)
          | Return false => (Return tt, c)
          | Return true =>
              match traverse adapt (fields td (get td "mtime")) with
              | Return ps =>
                  match row_of ps (authors old) (description old) with
                  | Some r => (Return tt, with_talks c (<[i := r]> (talks c)))
                  | None => (Raise ProgrammingError, c)
                  end
              | Raise e => (Raise e, c)
              end
          end
      end
    else (Raise OverflowError, c).
Proof.
  intros Hid Hi. unfold upsert_talk. unfold getitem at 1. rewrite Hid.
  rewrite bind_lift, bind_execute. cbn [traverse adapt].
  destruct (int64 i) eqn:Hr; [|reflexivity].
  rewrite run_select_talk, Hi. cbn [fetchone map item1 nth convert].
  fold (existing_mtime (last_mtime old)).
  rewrite bind_lift.
  destruct (getitem td "mtime") as [mtime|e]; [|reflexivity].
  rewrite bind_lift.
  destruct (gt mtime (existing_mtime (last_mtime old))) as [[|]|e];
    [|reflexivity|reflexivity].
  unfold bind at 1. unfold getitem. rewrite Hid, bind_lift, bind_execute.
  change [get td "guid"; get td "title"; get td "room"; get td "status";
          get td "start"; get td "duration"; get td "release_url";
          get td "mtime"; PInt i]
    with (fields td (get td "mtime") ++ [PInt i]).
  rewrite traverse_adapt_snoc. cbn [adapt]. rewrite Hr.
  destruct (traverse adapt (fields td (get td "mtime"))) as [ps|e];
    [|reflexivity].
  rewrite (run_update_talk _ _ _ _ Hi).
  now destruct (row_of ps (authors old) (description old)).
Qed.

Lemma get_lookup (d : dict) (k : string) (v : pyval) :
  d !! k = Some v -> get d k = v.
Proof. unfold get. now intros ->. Qed.

Lemma get_or_lookup (d : dict) (k : string) (v dflt : pyval) :
  d !! k = Some v -> get_or d k dflt = v.
Proof. unfold get_or. now intros ->. Qed.

Lemma get_or_absent (d : dict) (k : string) (dflt : pyval) :
  d !! k = None -> get_or d k dflt = dflt.
Proof. unfold get_or. now intros ->. Qed.

Lemma getitem_lookup (d : dict) (k : string) (v : pyval) :
  d !! k = Some v -> getitem d k = Return v.
Proof. unfold getitem. now intros ->. Qed.

Lemma existing_mtime_int (m : Z) : existing_mtime (SqlInt m) = PInt m.
Proof.
  unfold existing_mtime. cbn [convert truthy].
  destruct (Z.eqb_spec m 0) as [->|]; reflexivity.
Qed.

Lemma row_of_stored (td : dict) (m : Z) (ps : list sqlval) (a d : sqlval)
    (r : talk_row) :
  traverse adapt (fields td (PInt m)) = Return ps ->
  row_of ps a d = Some r ->
  last_mtime r = SqlInt m /\ authors r = a /\ description r = d.
Proof.
  change (fields td (PInt m)) with
    ([get td "guid"; get td "title"; get td "room"; get td "status";
      get td "start"; get td "duration"; get td "release_url"] ++ [PInt m]).
  rewrite traverse_adapt_snoc.
  destruct (traverse adapt _) as [qs|e] eqn:Hqs; [|discriminate].
  apply traverse_adapt_length in Hqs. cbn [adapt].
  destruct (int64 m); [|discriminate]. intros [= <-].
  do 8 (destruct qs as [|? qs]; try discriminate).
  cbn [app row_of]. intros [= <-]. now cbn.
Qed.

(** The snapshot [S1] has been applied to [c], giving [c1]: either [c1]
    is [c] and the row in place is at least as recent as [S1], or [c1]
    holds the row of [S1]. *)
Lemma upsert_talk_applied (S1 : dict) (i m1 : Z) (c c1 : conn) :
  S1 !! "id" = Some (PInt i) -> S1 !! "mtime" = Some (PInt m1) ->
  upsert_talk S1 c = (Return tt, c1) ->
  int64 i = true /\
  ((c1 = c /\ exists old e, talks c !! i = Some old /\
                 existing_mtime (last_mtime old) = PInt e /\ m1 <= e)
   \/ (exists ps r a d,
         traverse adapt (fields S1 (PInt m1)) = Return ps /\
         row_of ps a d = Some r /\
         c1 = with_talks c (<[i := r]> (talks c)) /\
         match talks c !! i with
         | None => a = SqlNull /\ d = SqlNull
         | Some old => a = authors old /\ d = description old /\
                       exists e, existing_mtime (last_mtime old) = PInt e /\ e < m1
         end)).
Proof.
  intros Hid Hm H. destruct (talks c !! i) as [old|] eqn:Hi.
  - rewrite (upsert_talk_existing _ _ _ _ Hid Hi) in H.
    destruct (int64 i); [|discriminate]. split; [reflexivity|].
    rewrite (getitem_lookup _ _ _ Hm), (get_lookup _ _ _ Hm) in H.
    destruct (existing_mtime (last_mtime old)) as [|e|s] eqn:He;
      cbn [gt] in H; try discriminate.
    destruct (Z.ltb_spec e m1).
    + right. destruct (traverse adapt _) as [ps|] eqn:Hps; [|discriminate].
      destruct (row_of ps _ _) as [r|] eqn:Hr; [|discriminate].
      injection H as <-. exists ps, r, (authors old), (description old).
      repeat split; try assumption. exists e. now split.
    + left. injection H as <-. split; [reflexivity|]. exists old, e. now split.
  - rewrite (upsert_talk_new _ _ _ Hid Hi) in H.
    destruct (int64 i); [|discriminate]. split; [reflexivity|].
    rewrite (get_or_lookup _ _ _ _ Hm) in H.
    destruct (traverse adapt _) as [ps|] eqn:Hps; [|discriminate].
    destruct (row_of ps _ _) as [r|] eqn:Hr; [|discriminate].
    injection H as <-. right. exists ps, r, SqlNull, SqlNull. now repeat split.
Qed.

(** [upsert_talk] returns on well-formed input: an integer id and an
    integer mtime, every integer of the snapshot within 64 bits, and a
    stored [last_mtime] (if any) that is an integer, NULL or empty. *)
Lemma upsert_talk_returns (td : dict) (i m : Z) (c : conn) :
  td !! "id" = Some (PInt i) -> td !! "mtime" = Some (PInt m) ->
  (forall (k : string) (z : Z), td !! k = Some (PInt z) -> int64 z = true) ->
  (forall old, talks c !! i = Some old ->
     exists e, existing_mtime (last_mtime old) = PInt e) ->
  exists c', upsert_talk td c = (Return tt, c').
Proof.
  intros Hid Hm Hfit Hold.
  assert (Hget : forall k, exists p, adapt (get td k) = Return p).
  { intros k. unfold get. destruct (td !! k) as [[|z|t]|] eqn:Hk;
      cbn [default from_option id adapt]; try (now eexists).
    rewrite (Hfit _ _ Hk). now eexists. }
  assert (Hps : exists ps, traverse adapt (fields td (PInt m)) = Return ps).
  { unfold fields. cbn [traverse].
    destruct (Hget "guid") as [? ->], (Hget "title") as [? ->],
      (Hget "room") as [? ->], (Hget "status") as [? ->],
      (Hget "start") as [? ->], (Hget "duration") as [? ->],
      (Hget "release_url") as [? ->].
    cbn [adapt]. rewrite (Hfit _ _ Hm). now eexists. }
  destruct Hps as [ps Hps].
  destruct (talks c !! i) as [old|] eqn:Hi.
  - rewrite (upsert_talk_existing _ _ _ _ Hid Hi), (Hfit _ _ Hid).
    rewrite (getitem_lookup _ _ _ Hm), (get_lookup _ _ _ Hm).
    destruct (Hold old eq_refl) as [e ->]. cbn [gt].
    destruct (e <? m); [|now eexists]. rewrite Hps.
    destruct (row_of_fields _ _ _ (authors old) (description old) Hps)
      as [r ->].
    now eexists.
  - rewrite (upsert_talk_new _ _ _ Hid Hi), (Hfit _ _ Hid).
    rewrite (get_or_lookup _ _ _ _ Hm), Hps.
    destruct (row_of_fields _ _ _ SqlNull SqlNull Hps) as [r ->].
    now eexists.
Qed.

(** C1. A snapshot that is not newer than the one already applied is
    discarded: when [S1] and [S2] carry the same integer id and integer
    mtimes with [S2.mtime <= S1.mtime], [upsert_talk S2] run after
    [upsert_talk S1] returns and leaves the whole catalog, hence the
    stored row, exactly as [upsert_talk S1] left it. *)
Theorem stale_snapshot_has_no_effect
    (S1 S2 : dict) (i m1 m2 : Z) (c c1 : conn) :
  S1 !! "id" = Some (PInt i) -> S2 !! "id" = Some (PInt i) ->
  S1 !! "mtime" = Some (PInt m1) -> S2 !! "mtime" = Some (PInt m2) ->
  m2 <= m1 ->
  upsert_talk S1 c = (Return tt, c1) ->
  upsert_talk S2 c1 = (Return tt, c1).
Proof.
  intros Hid1 Hid2 Hm1 Hm2 Hle H1.
  destruct (upsert_talk_applied _ _ _ _ _ Hid1 Hm1 H1)
    as [Hr [[-> (old & e & Hi & He & Hge)]|(ps & r & a & d & Hps & Hrow & -> & _)]].
  - rewrite (upsert_talk_existing _ _ _ _ Hid2 Hi), Hr.
    rewrite (getitem_lookup _ _ _ Hm2), He. cbn [gt].
    destruct (Z.ltb_spec e m2); [lia|reflexivity].
  - assert (Hi : talks (with_talks c (<[i := r]> (talks c))) !! i = Some r)
      by apply lookup_insert_eq.
    rewrite (upsert_talk_existing _ _ _ _ Hid2 Hi), Hr.
    destruct (row_of_stored _ _ _ _ _ _ Hps Hrow) as (-> & _).
    rewrite (getitem_lookup _ _ _ Hm2), existing_mtime_int. cbn [gt].
    destruct (Z.ltb_spec m1 m2); [lia|reflexivity].
Qed.

(** C2. A newer snapshot supersedes the one already applied: when [S1] and
    [S2] carry the same integer id and integer mtimes with
    [S2.mtime > S1.mtime], running [upsert_talk S2] after [upsert_talk S1]
    ends in a catalog [c2] exactly when running [upsert_talk S2] alone
    does, so the stored row is the same. *)
Theorem newer_snapshot_supersedes
    (S1 S2 : dict) (i m1 m2 : Z) (c c1 c2 : conn) :
  S1 !! "id" = Some (PInt i) -> S2 !! "id" = Some (PInt i) ->
  S1 !! "mtime" = Some (PInt m1) -> S2 !! "mtime" = Some (PInt m2) ->
  m1 < m2 ->
  upsert_talk S1 c = (Return tt, c1) ->
  upsert_talk S2 c1 = (Return tt, c2) <-> upsert_talk S2 c = (Return tt, c2).
Proof.
  intros Hid1 Hid2 Hm1 Hm2 Hlt H1.
  destruct (upsert_talk_applied _ _ _ _ _ Hid1 Hm1 H1)
    as [Hr [[-> _]|(ps & r & a & d & Hps & Hrow & -> & Hold)]];
    [reflexivity|].
  assert (Hi : talks (with_talks c (<[i := r]> (talks c))) !! i = Some r)
    by apply lookup_insert_eq.
  destruct (row_of_stored _ _ _ _ _ _ Hps Hrow) as (Hlast & Ha & Hd).
  rewrite (upsert_talk_existing _ _ _ _ Hid2 Hi), Hr.
  rewrite (getitem_lookup _ _ _ Hm2), (get_lookup _ _ _ Hm2), Hlast,
    existing_mtime_int. cbn [gt].
  destruct (Z.ltb_spec m1 m2); [|lia].
  assert (Hsame : forall r2 : talk_row,
            with_talks (with_talks c (<[i := r]> (talks c)))
              (<[i := r2]> (talks (with_talks c (<[i := r]> (talks c)))))
            = with_talks c (<[i := r2]> (talks c))).
  { intros r2. unfold with_talks. cbn [talks files files_seq].
    now rewrite insert_insert_eq. }
  destruct (talks c !! i) as [old|] eqn:Hc.
  - destruct Hold as (-> & -> & e & He & Hlt').
    rewrite (upsert_talk_existing _ _ _ _ Hid2 Hc), Hr.
    rewrite (getitem_lookup _ _ _ Hm2), (get_lookup _ _ _ Hm2), He. cbn [gt].
    destruct (Z.ltb_spec e m2); [|lia].
    rewrite Ha, Hd.
    destruct (traverse adapt (fields S2 (PInt m2))) as [qs|];
      [|split; discriminate].
    destruct (row_of qs _ _) as [r2|]; [|split; discriminate].
    now rewrite Hsame.
  - destruct Hold as (-> & ->).
    rewrite (upsert_talk_new _ _ _ Hid2 Hc), Hr.
    rewrite (get_or_lookup _ _ _ _ Hm2), Ha, Hd.
    destruct (traverse adapt (fields S2 (PInt m2))) as [qs|];
      [|split; discriminate].
    destruct (row_of qs _ _) as [r2|]; [|split; discriminate].
    now rewrite Hsame.
Qed.

(** C10. [upsert_talk] needs the key [mtime] exactly on the update path.
    For a snapshot with integer id [i] and no key [mtime]:
    - when a row with id [i] exists the call raises [KeyError "mtime"] and
      the catalog is left as it was, so a call that returns on an existing
      row had the key;
    - when no row with id [i] exists the call behaves as if the snapshot
      carried [mtime = 0], and the row it inserts has [last_mtime = 0]. *)
Theorem upsert_talk_needs_mtime_on_update (td : dict) (i : Z) (c : conn) :
  td !! "id" = Some (PInt i) -> int64 i = true ->
  (forall c', upsert_talk td c = (Return tt, c') ->
     is_Some (talks c !! i) -> is_Some (td !! "mtime")) /\
  (td !! "mtime" = None ->
     (is_Some (talks c !! i) ->
        upsert_talk td c = (Raise (KeyError "mtime"), c)) /\
     (talks c !! i = None ->
        upsert_talk td c = upsert_talk (<["mtime" := PInt 0]> td) c /\
        forall c', upsert_talk td c = (Return tt, c') ->
          last_mtime <$> talks c' !! i = Some (SqlInt 0))).
Proof.
  intros Hid Hr.
  assert (Hraise : td !! "mtime" = None -> is_Some (talks c !! i) ->
                   upsert_talk td c = (Raise (KeyError "mtime"), c)).
  { intros Hm [old Hi]. rewrite (upsert_talk_existing _ _ _ _ Hid Hi), Hr.
    unfold getitem. now rewrite Hm. }
  split; [|intros Hm; split; [now apply Hraise|]].
  - intros c' H Hrow. destruct (td !! "mtime") eqn:Hm; [now eexists|].
    rewrite (Hraise eq_refl Hrow) in H. discriminate.
  - intros Hi.
    assert (Hid' : <["mtime" := PInt 0]> td !! "id" = Some (PInt i))
      by (rewrite lookup_insert_ne; [assumption|discriminate]).
    assert (Hf : fields (<["mtime" := PInt 0]> td)
                   (get_or (<["mtime" := PInt 0]> td) "mtime" (PInt 0))
                 = fields td (PInt 0)).
    { rewrite (get_or_lookup _ _ (PInt 0)) by apply lookup_insert_eq.
      unfold fields, get. now rewrite !lookup_insert_ne by discriminate. }
    rewrite (upsert_talk_new _ _ _ Hid Hi), (upsert_talk_new _ _ _ Hid' Hi).
    rewrite Hr, Hf, (get_or_absent _ _ _ Hm).
    split; [reflexivity|].
    destruct (traverse adapt _) as [ps|] eqn:Hps; [|discriminate].
    destruct (row_of ps _ _) as [r|] eqn:Hrow; [|discriminate].
    intros c' [= <-]. cbn [talks with_talks]. rewrite lookup_insert_eq.
    cbn. f_equal. now destruct (row_of_stored _ _ _ _ _ _ Hps Hrow).
Qed.

Local Abbreviation insert_or_ignore_file :=
  (insert_or_ignore_file numeric_affinity random_rowid).
Local Abbreviation insert_or_ignore_files :=
  (insert_or_ignore_files numeric_affinity random_rowid).
Local Abbreviation update_enrichment :=
  (update_enrichment numeric_affinity random_rowid).

Lemma sql_eq_spec (a b : sqlval) :
  b <> SqlNull -> sql_eq a b = bool_decide (a = b).
Proof.
  intros Hb. destruct a, b; try reflexivity; congruence.
Qed.

Lemma file_matches_triple (t : Z) (ty u : string) (r : file_row) :
  file_matches numeric_affinity (SqlInt t, SqlText ty, SqlText u) r
  = bool_decide (triple r = (SqlInt t, SqlText ty, SqlText u)).
Proof.
  unfold file_matches, triple. cbn [integer_affinity text_affinity].
  rewrite !sql_eq_spec by discriminate.
  destruct r as [k a b c p]; cbn [talk_id file_type file_url].
  repeat case_bool_decide; subst; try reflexivity; congruence.
Qed.

(** What [insert_or_ignore_file] does, case by case. *)
Lemma insert_or_ignore_file_eq (t : Z) (ty u p : string) (c : conn) :
  insert_or_ignore_file t ty u p c =
    if int64 t then
      match rows_with (SqlInt t, SqlText ty, SqlText u) c with
      | [] =>
          if next_file_id c - 1 <? max_rowid then
            (Return tt,
             Conn (talks c)
               (files c ++ [FileRow (next_file_id c) (SqlInt t) (SqlText ty)
                              (SqlText u) (SqlText p)])
               (next_file_id c))
          else (Raise OperationalError, c)
      | _ :: _ => (Return tt, c)
      end
    else (Raise OverflowError, c).
Proof.
  unfold insert_or_ignore_file. rewrite bind_execute. cbn [traverse adapt].
  destruct (int64 t) eqn:Hr; [|reflexivity].
  unfold run at 1, bind at 1, get_state, ret.
  rewrite (filter_ext _ _ (file_matches_triple t ty u)).
  fold (rows_with (SqlInt t, SqlText ty, SqlText u) c).
  destruct (rows_with _ c) as [|r rs]; [|reflexivity].
  cbn [map fetchone]. rewrite bind_execute.
  cbn [traverse adapt]. rewrite Hr.
  unfold run, bind, get_state, put_state, ret, raise, commit, next_file_id.
  cbn [integer_affinity text_affinity].
  replace (fold_right Z.max (files_seq c) (map file_id (files c)) + 1 - 1)
    with (fold_right Z.max (files_seq c) (map file_id (files c))) by lia.
  now destruct (_ <? max_rowid).
Qed.

Lemma rows_with_nil (t : sqlval * sqlval * sqlval) (c : conn) :
  rows_with t c = [] <-> t ∉ map triple (files c).
Proof.
  unfold rows_with. induction (files c) as [|r l IH]; cbn [List.filter map].
  - split; [intros _; apply not_elem_of_nil|reflexivity].
  - rewrite not_elem_of_cons. case_bool_decide as Heq.
    + split; [discriminate|]. intros [Hne _]. now contradiction Hne.
    + rewrite IH. split; [now split; [congruence|]|now intros [_ ?]].
Qed.

Lemma rows_with_unique (t : sqlval * sqlval * sqlval) (c : conn) :
  files_unique c -> t ∈ map triple (files c) -> length (rows_with t c) = 1%nat.
Proof.
  unfold files_unique, rows_with.
  induction (files c) as [|r l IH]; cbn [List.filter map].
  - intros _ H. now apply elem_of_nil in H.
  - rewrite NoDup_cons. intros [Hnotin Hnd] Hin.
    case_bool_decide as Heq.
    + subst t. cbn [length]. f_equal.
      apply (proj2 (rows_with_nil (triple r) (Conn ∅ l 0))) in Hnotin.
      unfold rows_with in Hnotin. cbn [files] in Hnotin. now rewrite Hnotin.
    + apply IH; [assumption|].
      apply elem_of_cons in Hin as [Hin|Hin]; [congruence|assumption].
Qed.

Lemma insert_or_ignore_file_unique (t : Z) (ty u p : string) (c : conn) :
  files_unique c -> files_unique (snd (insert_or_ignore_file t ty u p c)).
Proof.
  intros Hc. rewrite insert_or_ignore_file_eq.
  destruct (int64 t); [|assumption].
  destruct (rows_with _ c) as [|r rs] eqn:Hrows; [|assumption].
  destruct (_ <? max_rowid); [|assumption].
  unfold files_unique. cbn [snd files]. rewrite map_app. cbn [map triple].
  cbn [talk_id file_type file_url].
  apply NoDup_app. split; [assumption|]. split; [|apply NoDup_singleton].
  intros x Hx Hx'. apply list_elem_of_singleton in Hx'. subst x.
  now apply rows_with_nil in Hrows.
Qed.

(** C3. [files] holds at most one row per triple
    [(talk_id, file_type, file_url)]:
    - the table [init_db] creates has the property, and every run of
      [insert_or_ignore_file] calls preserves it, whether the run ends
      normally or is cut short by an exception;
    - when a call returns, the same call made again (whatever its
      [local_path]) returns too and changes nothing, and the table then
      holds exactly one row with that triple. *)
Theorem files_hold_one_row_per_triple :
  files_unique init_db /\
  (forall (c : conn) (calls : list (Z * string * string * string)),
     files_unique c -> files_unique (snd (insert_or_ignore_files calls c))) /\
  (forall (c c1 : conn) (t : Z) (ty u p p' : string),
     files_unique c ->
     insert_or_ignore_file t ty u p c = (Return tt, c1) ->
     insert_or_ignore_file t ty u p' c1 = (Return tt, c1) /\
     length (rows_with (SqlInt t, SqlText ty, SqlText u) c1) = 1%nat).
Proof.
  split; [apply NoDup_nil_2|]. split.
  - intros c calls. revert c.
    induction calls as [|[[[t ty] u] p] calls IH]; intros c Hc; [assumption|].
    unfold Catalog.insert_or_ignore_files. cbn [for_each]. unfold bind.
    pose proof (insert_or_ignore_file_unique t ty u p c Hc) as H1.
    destruct (insert_or_ignore_file t ty u p c) as [[[]|e] c1];
      [|assumption].
    now apply IH.
  - intros c c1 t ty u p p' Hc H.
    pose proof (insert_or_ignore_file_unique t ty u p c Hc) as Hc1.
    rewrite H in Hc1. cbn [snd] in Hc1.
    assert (Hin : (SqlInt t, SqlText ty, SqlText u) ∈ map triple (files c1)).
    { rewrite insert_or_ignore_file_eq in H.
      destruct (int64 t); [|discriminate].
      destruct (rows_with _ c) as [|r rs] eqn:Hrows.
      - destruct (_ <? max_rowid); [|discriminate]. injection H as <-.
        cbn [files]. rewrite map_app. apply elem_of_app. right.
        apply list_elem_of_singleton. reflexivity.
      - injection H as <-.
        destruct (decide ((SqlInt t, SqlText ty, SqlText u)
                          ∈ map triple (files c))) as [|Hn]; [assumption|].
        apply rows_with_nil in Hn. congruence. }
    pose proof (rows_with_unique _ _ Hc1 Hin) as Hone. split; [|assumption].
    rewrite insert_or_ignore_file_eq.
    rewrite insert_or_ignore_file_eq in H.
    destruct (int64 t); [|discriminate].
    destruct (rows_with _ c1) as [|r rs]; [discriminate|reflexivity].
Qed.

(** When the update is applied, both enrichment columns are overwritten. *)
Lemma update_enrichment_eq (i : Z) (a d : string) (c : conn) :
  update_enrichment i a d c =
    if truthy (PStr a) || truthy (PStr d) then
      if int64 i then
        match talks c !! i with
        | Some old =>
            (Return tt,
             with_talks c
               (<[i := TalkRow (guid old) (title old) (room old) (status old)
                         (start old) (duration old) (release_url old)
                         (SqlText a) (SqlText d) (last_mtime old)]> (talks c)))
        | None => (Return tt, c)
        end
      else (Raise OverflowError, c)
    else (Return tt, c).
Proof.
  unfold update_enrichment.
  destruct (truthy (PStr a) || truthy (PStr d)); [|reflexivity].
  rewrite bind_execute. cbn [traverse adapt].
  destruct (int64 i); [|reflexivity].
  unfold run, bind, get_state. cbn [as_rowid integer_affinity text_affinity].
  now destruct (talks c !! i).
Qed.

(** C8, as the code has it. The enrichment update is applied only when at
    least one of the two scraped strings is non-empty: with two empty
    strings the catalog is left as it is.  When it is applied to an
    existing row it stores both scraped strings, the empty one included,
    and changes no other column. *)
Theorem enrichment_stores_both_strings
    (i : Z) (a d : string) (c : conn) :
  (a = "" -> d = "" -> update_enrichment i a d c = (Return tt, c)) /\
  (forall (old : talk_row) (c' : conn),
     a <> "" \/ d <> "" ->
     talks c !! i = Some old ->
     update_enrichment i a d c = (Return tt, c') ->
     talks c' !! i =
       Some (TalkRow (guid old) (title old) (room old) (status old)
               (start old) (duration old) (release_url old)
               (SqlText a) (SqlText d) (last_mtime old))).
Proof.
  split.
  - intros -> ->. now rewrite update_enrichment_eq.
  - intros old c' Hfound Hi. rewrite update_enrichment_eq, Hi.
    assert (Ht : truthy (PStr a) || truthy (PStr d) = true).
    { cbn [truthy]. destruct (String.eqb_spec a ""), (String.eqb_spec d "");
        try reflexivity. now destruct Hfound. }
    rewrite Ht. destruct (int64 i); [|discriminate].
    intros [= <-]. cbn [talks with_talks]. apply lookup_insert_eq.
Qed.

End CatalogFacts.

(** ** Facts about the asset fetcher *)

Section FetcherFacts.

Import Web.

Variable int_of_str : string -> option Z.
Variable net : network.

Local Abbreviation download_file := (download_file int_of_str net).
Local Abbreviation expected_size_of := (expected_size_of int_of_str).

Lemma append_assoc (a b c : string) : (a +:+ b) +:+ c = a +:+ (b +:+ c).
Proof.
  induction a as [|x a IH]; [reflexivity|].
  change (String x ((a +:+ b) +:+ c) = String x (a +:+ (b +:+ c))).
  now rewrite IH.
Qed.

Lemma append_empty (a : string) : a +:+ "" = a.
Proof.
  induction a as [|x a IH]; [reflexivity|].
  change (String x (a +:+ "") = String x a). now rewrite IH.
Qed.

(** The loop over the chunks appends the body to the open file. *)
Lemma write_chunks (dest_path : string) (chunks : list bytes) :
  forall (content : bytes) (w : world),
    fs w !! dest_path = Some content ->
    for_each chunks
      (fun chunk =>
         if String.eqb chunk "" then ret tt else write dest_path chunk) w
    = (Return tt,
       World (<[dest_path := content +:+ joined chunks]> (fs w))
         (stdout w) (sent w)).
Proof.
  induction chunks as [|chunk chunks IH]; intros content [f out rs] Hf;
    cbn [fs stdout sent] in *.
  - cbn. now rewrite append_empty, insert_id.
  - cbn [for_each joined fold_right]. unfold bind at 1.
    destruct (String.eqb_spec chunk "") as [->|Hne].
    + cbn [ret]. now rewrite (IH content).
    + unfold write, bind, get_state, set_fs. cbn [fs stdout sent].
      rewrite (IH (content +:+ chunk)); cbn [fs stdout sent].
      * rewrite (alter_alt_Some _ _ _ _ Hf), insert_insert_eq.
        now rewrite append_assoc.
      * rewrite (alter_alt_Some _ _ _ _ Hf). apply lookup_insert_eq.
Qed.

(** The probe: one HEAD request, never an exception. *)
Lemma probe_eq (url : string) (k : option Z -> M world bool) (w : world) :
  bind
    (try_except
      (head_resp <- requests_head net url ;;
       let '(status_code, content_length) := head_resp in
       if negb (is_error status_code) then
         match content_length with
         | Some value => ret (int_of_str value)
         | None => ret None
         end
       else ret None)
      is_request_exception
      (ret None)) k w
  = k (expected_size_of (head_of net url))
      (World (fs w) (stdout w) (sent w ++ [HEAD url])).
Proof.
  unfold bind at 1, try_except, requests_head, bind, send, Web.expected_size_of.
  destruct (head_of net url) as [|status_code [value|]]; cbn;
    try destruct (is_error status_code); reflexivity.
Qed.

(** The skip rule, as [download_file] evaluates it. *)
Lemma complete_eq (expected_size : option Z) (dest_path : string)
    (k : bool -> M world bool) (w : world) :
  bind
    (if known expected_size then
       there <- path_exists dest_path ;;
       if there : bool then
         size <- st_size dest_path ;; ret (size_is size expected_size)
       else ret false
     else ret false) k w
  = k (already_complete expected_size dest_path w) w.
Proof.
  unfold already_complete. destruct (known expected_size); [|reflexivity].
  cbv [bind path_exists st_size get_state ret andb].
  destruct (fs w !! dest_path) as [content|] eqn:Hf.
  - rewrite bool_decide_eq_true_2 by (now eexists). now rewrite Hf.
  - rewrite bool_decide_eq_false_2; [reflexivity|]. now intros [? ?].
Qed.

(** [download_file], outcome by outcome. *)
Lemma download_file_eq (url dest_path : string) (w : world) :
  download_file url dest_path w =
    let expected_size := expected_size_of (head_of net url) in
    if already_complete expected_size dest_path w then
      (Return true,
       World (fs w) (stdout w ++ [AlreadyComplete dest_path])
         (sent w ++ [HEAD url]))
    else
      let w0 := cleared url dest_path w in
      match get_of net url with
      | GetFailed => (Return false, said (DownloadFailed url) w0)
      | GetResponse status_code chunks broken =>
          if is_error status_code then
            (Return false, said (DownloadFailed url) w0)
          else if broken then
            (Return false, said (DownloadFailed url) w0)
          else
            (Return true,
             World (<[dest_path := joined chunks]> (fs w))
               (stdout w0 ++
                [if known expected_size
                    && negb (size_is (Z.of_nat (String.length (joined chunks)))
                               expected_size)
                 then SizeWarning dest_path else DownloadDone dest_path])
               (sent w0))
      end.
Proof.
  unfold Web.download_file. rewrite probe_eq, complete_eq.
  cbn zeta. set (expected_size := expected_size_of (head_of net url)).
  destruct w as [f out rs].
  destruct (already_complete expected_size dest_path _) eqn:Hc; [reflexivity|].
  unfold cleared, said. cbn [fs stdout sent].
  assert (Hstart :
    forall body : M world bool,
      (there <- path_exists dest_path ;;
       (if there : bool then
          print (ReloadExisting dest_path) ;; unlink dest_path
        else ret tt) ;;
       print (Downloading url dest_path) ;; body)
        (World f out (rs ++ [HEAD url]))
      = body (World (delete dest_path f)
                (out ++ (if bool_decide (is_Some (f !! dest_path))
                         then [ReloadExisting dest_path] else [])
                     ++ [Downloading url dest_path])
                (rs ++ [HEAD url]))).
  { intros body.
    cbv [bind path_exists get_state ret print unlink set_fs fs stdout sent].
    destruct (f !! dest_path) as [content|] eqn:Hf.
    - rewrite bool_decide_eq_true_2 by (now eexists). rewrite Hf.
      now rewrite <- app_assoc.
    - rewrite bool_decide_eq_false_2 by (now intros [? ?]).
      now rewrite delete_id. }
  rewrite Hstart. clear Hstart.
  set (out0 := out ++ _ ++ [Downloading url dest_path]).
  assert (Hfail :
    forall f' : gmap string bytes,
      delete dest_path f' = delete dest_path f ->
      (print (DownloadFailed url) ;;
       there <- path_exists dest_path ;;
       (if there : bool then unlink dest_path else ret tt) ;;
       ret false)
        (World f' out0 (rs ++ [HEAD url; GET url]))
      = (Return false,
         World (delete dest_path f) (out0 ++ [DownloadFailed url])
           (rs ++ [HEAD url; GET url]))).
  { intros f' Hf'.
    cbv [bind path_exists get_state ret print unlink set_fs fs stdout sent].
    destruct (f' !! dest_path) as [content|] eqn:Hl.
    - rewrite bool_decide_eq_true_2 by (now eexists). now rewrite Hl, Hf'.
    - rewrite bool_decide_eq_false_2 by (now intros [? ?]).
      now rewrite <- Hf', delete_id. }
  assert (Hsent : (rs ++ [HEAD url]) ++ [GET url] = rs ++ [HEAD url; GET url])
    by now rewrite <- app_assoc.
  unfold try_except.
  destruct (get_of net url) as [|status_code chunks broken] eqn:Hget.
  { erewrite bind_raise;
      [|unfold requests_get, bind, send; rewrite Hget; reflexivity].
    cbn [is_request_exception fs stdout sent]. rewrite Hsent.
    apply Hfail. apply delete_delete_eq. }
  erewrite bind_eq;
    [|unfold requests_get, bind, send; rewrite Hget; reflexivity].
  cbn [fs stdout sent]. rewrite Hsent. unfold raise_for_status.
  destruct (is_error status_code).
  { cbn [bind raise is_request_exception]. apply Hfail.
    apply delete_delete_eq. }
  erewrite bind_eq by reflexivity.
  erewrite bind_eq by reflexivity.
  erewrite bind_eq;
    [|apply write_chunks with (content := ""); apply lookup_insert_eq].
  cbn [fs stdout sent String.append].
  rewrite insert_insert_eq, insert_delete_eq.
  destruct broken.
  { cbn [bind raise is_request_exception]. apply Hfail.
    now rewrite delete_insert_eq. }
  erewrite bind_eq by reflexivity.
  destruct (known expected_size).
  - erewrite bind_eq;
      [|cbv [bind st_size get_state ret fs]; rewrite lookup_insert_eq;
        reflexivity].
    cbn [andb]. now destruct (negb _).
  - reflexivity.
Qed.

(** C4. A download that reports failure leaves nothing behind: whenever
    [download_file url dest_path] returns [False], no file exists at
    [dest_path] in the world it returns in, whatever was there before and
    however many chunks had been written. *)
Theorem failed_download_leaves_no_file (url dest_path : string) (w w' : world) :
  download_file url dest_path w = (Return false, w') ->
  fs w' !! dest_path = None.
Proof.
  unfold Web.download_file. intros H.
  apply bind_return_inv in H as (expected_size & w1 & _ & H).
  apply bind_return_inv in H as ([|] & w2 & _ & H).
  { apply bind_return_inv in H as (? & ? & _ & H). discriminate. }
  apply bind_return_inv in H as (there & w3 & _ & H).
  apply bind_return_inv in H as (? & w4 & _ & H).
  apply bind_return_inv in H as (? & w5 & _ & H).
  apply try_except_return_inv in H as [H|(e & w6 & _ & _ & H)].
  - apply bind_return_inv in H as ([[status_code chunks] broken] & ? & _ & H).
    apply bind_return_inv in H as (? & ? & _ & H).
    apply bind_return_inv in H as (? & ? & _ & H).
    apply bind_return_inv in H as (? & ? & _ & H).
    apply bind_return_inv in H as (? & ? & _ & H).
    apply bind_return_inv in H as ([|] & ? & _ & H);
      apply bind_return_inv in H as (? & ? & _ & H); discriminate.
  - apply bind_return_inv in H as (? & w7 & _ & H).
    apply bind_return_inv in H as (there' & w8 & Hthere & H).
    apply bind_return_inv in H as (? & w9 & Hunlink & H).
    injection H as <-.
    unfold path_exists, bind, get_state, ret in Hthere.
    injection Hthere as <- <-.
    case_bool_decide as Hex.
    + unfold unlink, bind, get_state, set_fs in Hunlink.
      destruct (fs w7 !! dest_path); [|discriminate].
      injection Hunlink as _ <-. cbn [fs]. apply lookup_delete_eq.
    + injection Hunlink as _ <-. now apply eq_None_not_Some.
Qed.

(** The other direction of C4: each kind of transport failure of the
    transfer makes [download_file] return [False]. *)
Lemma transport_failure_returns_false (url dest_path : string) (w : world) :
  already_complete (expected_size_of (head_of net url)) dest_path w = false ->
  match get_of net url with
  | GetFailed => True
  | GetResponse status_code _ broken =>
      is_error status_code = true \/ broken = true
  end ->
  download_file url dest_path w =
    (Return false, said (DownloadFailed url) (cleared url dest_path w)).
Proof.
  intros Hc Hget. rewrite download_file_eq. cbn zeta. rewrite Hc.
  destruct (get_of net url) as [|status_code chunks broken]; [reflexivity|].
  destruct (is_error status_code); [reflexivity|].
  destruct Hget as [?| ->]; [discriminate|reflexivity].
Qed.

(** The skip rule, for an expected size other than 0. *)
Lemma complete_file_is_not_fetched_again
    (url dest_path : string) (w : world) (n : Z) (content : bytes) :
  expected_size_of (head_of net url) = Some n -> n <> 0 ->
  fs w !! dest_path = Some content ->
  Z.of_nat (String.length content) = n ->
  download_file url dest_path w =
    (Return true,
     World (fs w) (stdout w ++ [AlreadyComplete dest_path])
       (sent w ++ [HEAD url])).
Proof.
  intros He Hn Hf Hlen. rewrite download_file_eq. cbn zeta. rewrite He.
  unfold already_complete. rewrite Hf. cbn [known size_is]. rewrite Hlen.
  rewrite Z.eqb_refl. now destruct (Z.eqb_spec n 0).
Qed.

(** A size mismatch after a completed transfer is not a failure: when
    the probe has given an expected size [n], the skip rule does not
    apply, the body arrives whole and its size is not [n], [download_file]
    returns [True] and the file at [dest_path] holds the body.  For [n]
    other than 0 the last line printed is the warning. *)
Theorem size_mismatch_is_not_a_failure
    (url dest_path : string) (w : world) (n status_code : Z)
    (chunks : list bytes) :
  expected_size_of (head_of net url) = Some n ->
  already_complete (Some n) dest_path w = false ->
  get_of net url = GetResponse status_code chunks false ->
  is_error status_code = false ->
  Z.of_nat (String.length (joined chunks)) <> n ->
  exists w',
    download_file url dest_path w = (Return true, w') /\
    fs w' !! dest_path = Some (joined chunks) /\
    (n <> 0 -> last (stdout w') = Some (SizeWarning dest_path)).
Proof.
  intros He Hc Hget Hok Hsize. rewrite download_file_eq. cbn zeta.
  rewrite He, Hc, Hget, Hok. eexists. split; [reflexivity|].
  cbn [fs stdout]. split; [apply lookup_insert_eq|].
  intros Hn. rewrite last_snoc. cbn [known size_is].
  destruct (Z.eqb_spec n 0); [contradiction|].
  now destruct (Z.eqb_spec (Z.of_nat (String.length (joined chunks))) n).
Qed.

End FetcherFacts.

(** ** Facts about the page scrapers *)

Section ScraperFacts.

Import Web.

Variable net : network.
Variable lower : string -> string.
Variable strip : string -> string.
Variable html_parser : string -> node.

Local Abbreviation get_release_url_from_website :=
  (get_release_url_from_website net lower strip html_parser).
Local Abbreviation parse_release_page :=
  (parse_release_page net strip html_parser).
Local Abbreviation first_match := (first_match lower strip).
Local Abbreviation display_link := (display_link strip).
Local Abbreviation listing_entries := (listing_entries strip).
Local Abbreviation title_matches := (title_matches lower).

Lemma find_test (root : node) (name : string) (test : node -> bool) (n : node) :
  find root name test = Some n -> test n = true.
Proof.
  unfold find, find_all. intros H.
  assert (Hin : In n (List.filter (fun n => name_is name n && test n)
                        (descendants root))).
  { destruct (List.filter _ _) as [|x l]; [discriminate|].
    injection H as ->. now left. }
  apply filter_In in Hin as [_ Hn]. now apply andb_prop in Hn.
Qed.

(** The loop returns the origin followed by the target of the first
    matching entry. *)
Lemma first_match_eq (title base_url : string) (event_previews : list node) :
  first_match (PStr title) base_url event_previews =
    Return ((fun entry => base_url +:+ fst entry)
              <$> List.find (title_matches title)
                    (omap display_link event_previews)).
Proof.
  induction event_previews as [|preview rest IH]; [reflexivity|].
  cbn [first_match omap list_omap]. unfold display_link at 1.
  unfold Web.display_link.
  destruct (find preview "div" _) as [caption|]; cbn [mbind option_bind];
    [|exact IH].
  destruct (find caption "h3" _) as [h3_tag|]; cbn [mbind option_bind];
    [|exact IH].
  destruct (find h3_tag "a" has_href) as [a_tag|] eqn:Ha;
    cbn [mbind option_bind]; [|exact IH].
  apply find_test in Ha. unfold has_href in Ha.
  destruct (get_href a_tag) as [relative_href|]; [|discriminate].
  cbn [mbind option_bind List.find]. unfold title_matches at 1.
  unfold Web.title_matches. cbn [snd].
  destruct (str_in _ _); [reflexivity|exact IH].
Qed.

Lemma break_app (stop : ascii -> bool) (s : string) :
  fst (break stop s) +:+ snd (break stop s) = s.
Proof.
  induction s as [|a s IH]; [reflexivity|]. cbn [break].
  destruct (stop a); [reflexivity|].
  destruct (break stop s) as [front rest]. cbn [fst snd] in *.
  change (String a (front +:+ rest) = String a s). now rewrite IH.
Qed.

Lemma break_rest (stop : ascii -> bool) (s : string) :
  snd (break stop s) = "" \/
  exists a s', snd (break stop s) = String a s' /\ stop a = true.
Proof.
  induction s as [|a s IH]; [now left|]. cbn [break].
  destruct (stop a) eqn:Ha; [right; now exists a, s|].
  destruct (break stop s) as [front rest]. exact IH.
Qed.

Lemma segments_cons (p : string) :
  exists first rest, segments p = first :: rest.
Proof.
  induction p as [|a p (first & rest & IH)]; [now eexists _, _|].
  cbn [segments]. rewrite IH. destruct (Ascii.eqb a "/"); now eexists _, _.
Qed.

Lemma concat_segments (p : string) : String.concat "/" (segments p) = p.
Proof.
  induction p as [|a p IH]; [reflexivity|]. cbn [segments].
  destruct (segments_cons p) as (first & rest & Hp). rewrite Hp in *.
  destruct (Ascii.eqb_spec a "/") as [->|_].
  - change (String.concat "/" ("" :: first :: rest))
      with (String "/" (String.concat "/" (first :: rest))).
    now rewrite IH.
  - rewrite <- IH. now destruct rest.
Qed.

Lemma concat_push (out seg : string) (rest : list string) :
  String.concat "/" ((out +:+ "/" +:+ seg) :: rest)
  = out +:+ "/" +:+ String.concat "/" (seg :: rest).
Proof.
  destruct rest as [|r rest]; [reflexivity|].
  change (String.concat "/" ((out +:+ "/" +:+ seg) :: r :: rest))
    with ((out +:+ "/" +:+ seg) +:+ "/" +:+ String.concat "/" (r :: rest)).
  change (String.concat "/" (seg :: r :: rest))
    with (seg +:+ "/" +:+ String.concat "/" (r :: rest)).
  now rewrite !append_assoc.
Qed.

Lemma remove_dots_rooted_plain (input : list string) (out : string) :
  forallb (fun seg => negb (is_dot seg)) input = true ->
  remove_dots_rooted out input = String.concat "/" (out :: input).
Proof.
  revert out. induction input as [|seg rest IH]; intros out Hplain;
    [reflexivity|].
  cbn [forallb] in Hplain. apply andb_prop in Hplain as [Hseg Hrest].
  unfold is_dot in Hseg. apply negb_true_iff, orb_false_elim in Hseg as [H1 H2].
  cbn [remove_dots_rooted]. rewrite H1, H2, (IH _ Hrest), concat_push.
  reflexivity.
Qed.

Lemma remove_dot_segments_plain (p : string) :
  forallb (fun seg => negb (is_dot seg)) (segments p) = true ->
  remove_dot_segments p = p.
Proof.
  intros Hplain. unfold remove_dot_segments.
  rewrite <- (concat_segments p) at 2.
  destruct (segments p) as [|first rest]; [reflexivity|].
  cbn [forallb] in Hplain. apply andb_prop in Hplain as [Hfirst Hrest].
  cbn [remove_dots_from]. apply negb_true_iff in Hfirst. rewrite Hfirst.
  exact (remove_dots_rooted_plain _ _ Hrest).
Qed.

Lemma one_of_query_or_fragment (a : ascii) :
  one_of "?#" a = true -> a = "?"%char \/ a = "#"%char.
Proof.
  unfold one_of. cbn [list_ascii_of_string existsb].
  destruct (Ascii.eqb_spec a "?"); [now left|].
  destruct (Ascii.eqb_spec a "#"); [now right|discriminate].
Qed.

Lemma recompose_tail (s : string) :
  (s = "" \/ exists a s', s = String a s' /\ one_of "?#" a = true) ->
  match fst (split_query s) with Some q => "?" +:+ q | None => "" end
  +:+ match fragment_of (snd (split_query s)) with
      | Some f => "#" +:+ f
      | None => ""
      end
  = s.
Proof.
  intros [->|(a & s' & -> & Ha)]; [reflexivity|].
  apply one_of_query_or_fragment in Ha as [->| ->]; [|reflexivity].
  cbn [split_query Ascii.eqb Bool.eqb].
  pose proof (break_app (one_of "#") s') as Happ.
  pose proof (break_rest (one_of "#") s') as Hrest.
  destruct (break (one_of "#") s') as [q rest]. cbn [fst snd] in *.
  change ("?" +:+ q) with (String "?" q).
  change (String "?" q +:+ ?x) with (String "?" (q +:+ x)).
  f_equal. rewrite <- Happ. f_equal.
  destruct Hrest as [->|(a & f & -> & Ha)]; [reflexivity|].
  unfold one_of in Ha. cbn [list_ascii_of_string existsb] in Ha.
  rewrite orb_false_r in Ha. apply Ascii.eqb_eq in Ha as ->. reflexivity.
Qed.

Lemma resolve_plain_root_path (target : string) :
  plain_root_path target = true ->
  resolve_against "https://media.ccc.de" target
  = "https://media.ccc.de" +:+ target.
Proof.
  unfold plain_root_path. intros H.
  apply andb_prop in H as [H Hplain]. apply andb_prop in H as [Hroot Hone].
  destruct target as [|a t]; [discriminate|].
  cbn [String.prefix] in Hroot.
  destruct (ascii_dec "/" a) as [<-|]; [clear Hroot|discriminate].
  assert (Hauthority : split_authority (String "/" t) = (None, String "/" t)).
  { destruct t as [|b t]; [reflexivity|]. cbn [split_authority].
    destruct (Ascii.eqb_spec b "/") as [->|];
      [exfalso; revert Hone; cbn; now destruct t|].
    now rewrite andb_false_r. }
  unfold resolve_against, parse at 2.
  change (split_scheme (String "/" t)) with (@None string, String "/" t).
  cbn iota. rewrite Hauthority. cbn iota.
  pose proof (break_app (one_of "?#") (String "/" t)) as Happ.
  pose proof (break_rest (one_of "?#") (String "/" t)) as Hrest.
  destruct (break (one_of "?#") (String "/" t)) as [path rest] eqn:Hbreak.
  cbn [fst snd] in *.
  assert (Hpath : exists p, path = String "/" p).
  { cbn [break] in Hbreak. change (one_of "?#" "/") with false in Hbreak.
    cbn iota in Hbreak. destruct (break (one_of "?#") t) as [front r].
    injection Hbreak as <- _. now eexists. }
  destruct Hpath as [p ->].
  pose proof (recompose_tail rest Hrest) as Htail.
  destruct (split_query rest) as [query s4]. cbn [fst snd] in Htail.
  change (parse "https://media.ccc.de")
    with (Reference (Some "https") (Some "media.ccc.de") "" None None).
  unfold resolve. cbn [ref_scheme ref_authority ref_path ref_query ref_fragment].
  change (String.eqb (String "/" p) "") with false. cbn iota.
  replace (String.prefix "/" (String "/" p)) with true
    by (cbn; now destruct p).
  rewrite (remove_dot_segments_plain _ Hplain).
  unfold recompose.
  cbn [ref_scheme ref_authority ref_path ref_query ref_fragment].
  rewrite <- Happ, <- Htail.
  rewrite !append_assoc. reflexivity.
Qed.

Lemma last_language_eq (class_ : list string) (language : option string) :
  fold_left
    (fun language c =>
       if existsb (String.eqb c) ["deu"; "eng"; "fra"] then Some c
       else language)
    class_ language
  = match last_language class_ with
    | Some c => Some c
    | None => language
    end.
Proof.
  unfold last_language. revert language.
  induction class_ as [|c class_ IH]; intros language; [reflexivity|].
  cbn [fold_left List.filter]. rewrite IH.
  destruct (existsb (String.eqb c) _); [|reflexivity].
  destruct (List.filter _ class_) as [|x l]; [reflexivity|].
  change (last (c :: x :: l)) with (last (x :: l)).
  destruct (last (x :: l)) eqn:Hlast; [reflexivity|].
  apply last_None in Hlast. discriminate.
Qed.

Lemma audio_filetype_eq (class_ : list string) (href : string) :
  audio_filetype class_ href =
    "audio_" +:+ format (last_language class_) +:+ "_" +:+ codec_of href.
Proof.
  unfold audio_filetype, codec_of. rewrite last_language_eq.
  destruct (last_language class_); destruct (str_in ".mp3" href);
    try reflexivity; now destruct (str_in ".opus" href).
Qed.

Lemma audio_loop_eq (audio_btns : list node) (acc : list (string * string)) :
  fold_left
    (fun audio_urls a =>
       match get_href a with
       | Some href =>
           if String.eqb href "" then audio_urls
           else audio_urls ++ [(audio_filetype (classes a) href, href)]
       | None => audio_urls
       end)
    audio_btns acc
  = acc ++ omap audio_entry audio_btns.
Proof.
  revert acc. induction audio_btns as [|a audio_btns IH]; intros acc.
  - cbn. now rewrite app_nil_r.
  - cbn [fold_left omap list_omap]. rewrite IH. unfold audio_entry at 2.
    destruct (get_href a) as [href|]; [|reflexivity].
    destruct (String.eqb href ""); [reflexivity|].
    now rewrite audio_filetype_eq, <- app_assoc.
Qed.

(** What the audio loop does with the buttons the selector hands it. The
    tag of a button is [audio_<lang>_<codec>], where [<lang>] is the last
    of the codes deu, eng, fra among the class tokens of the link ([None]
    when there is none) and [<codec>] is mp3 when the link target contains
    [.mp3], else opus when it contains [.opus], else other.
    [parse_release_page] collects the pairs (tag, target) of the selected
    buttons that have a non-empty target, in document order, keeping
    duplicates. *)
Theorem audio_tags_follow_class_and_target (release_url : string) (w : world) :
  (forall (class_ : list string) (href : string),
     audio_filetype class_ href =
       "audio_" +:+ format (last_language class_) +:+ "_" +:+ codec_of href) /\
  (forall (status_code : Z) (text : string),
     page_of net release_url = PageResponse status_code text ->
     is_error status_code = false ->
     exists info,
       parse_release_page release_url w =
         (Return info,
          World (fs w) (stdout w) (sent w ++ [GET release_url])) /\
       audio_urls info = omap audio_entry (audio_buttons (html_parser text))).
Proof.
  split; [exact audio_filetype_eq|].
  intros status_code text Hpage Hok.
  unfold Web.parse_release_page. cbn zeta.
  erewrite bind_eq; cycle 1.
  { unfold try_except. erewrite bind_eq;
      [|unfold requests_get_page, bind, send; rewrite Hpage; reflexivity].
    unfold raise_for_status. rewrite Hok. reflexivity. }
  cbn [fs stdout sent]. eexists. split; [reflexivity|].
  cbn [audio_urls]. now rewrite audio_loop_eq.
Qed.

Lemma str_in_blank_cons (a : ascii) (s : string) :
  str_in " " (String a s) = false ->
  Ascii.eqb a " " = false /\ str_in " " s = false.
Proof.
  cbn [str_in String.prefix]. destruct (ascii_dec " " a) as [<-|Hne].
  - now destruct s.
  - cbn [orb]. intros ->. split; [|reflexivity].
    apply Ascii.eqb_neq. congruence.
Qed.

Lemma split_blank_token (t r : string) :
  str_in " " t = false ->
  split_blank t = [t] /\
  split_blank (t +:+ String " " r) = t :: split_blank r.
Proof.
  induction t as [|a t IH]; intros Ht.
  - split; reflexivity.
  - apply str_in_blank_cons in Ht as [Ha Ht]. destruct (IH Ht) as [IH1 IH2].
    split.
    + cbn [split_blank]. now rewrite Ha, IH1.
    + change (String a t +:+ String " " r)
        with (String a (t +:+ String " " r)).
      cbn [split_blank]. now rewrite Ha, IH2.
Qed.

Lemma split_blank_concat (class_ : list string) :
  blank_free class_ -> class_ <> [] ->
  split_blank (String.concat " " class_) = class_.
Proof.
  induction 1 as [|c class_ Hc Hfree IH]; [congruence|]. intros _.
  destruct class_ as [|c' class_].
  - apply (split_blank_token c "" Hc).
  - change (String.concat " " (c :: c' :: class_))
      with (c +:+ String " " (String.concat " " (c' :: class_))).
    destruct (split_blank_token c (String.concat " " (c' :: class_)) Hc)
      as [_ ->].
    f_equal. now apply IH.
Qed.

(** What the selector of the audio buttons lets through: links whose class
    attribute is exactly the four tokens of the selector.  None of them
    carries a language code, so every tag reads [audio_None_...]. *)
Lemma audio_button_has_no_language (a : node) :
  blank_free (classes a) ->
  class_matches "btn btn-default download audio" a = true ->
  classes a = ["btn"; "btn-default"; "download"; "audio"] /\
  last_language (classes a) = None.
Proof.
  intros Hfree Hmatch.
  assert (Hcl : classes a = ["btn"; "btn-default"; "download"; "audio"]).
  { unfold class_matches in Hmatch. apply orb_prop in Hmatch as [Hone|Hall].
    - apply existsb_exists in Hone as (c & Hin & Hc).
      apply String.eqb_eq in Hc. subst c.
      unfold blank_free in Hfree. rewrite List.Forall_forall in Hfree.
      specialize (Hfree _ Hin). discriminate.
    - apply String.eqb_eq in Hall.
      destruct (classes a) as [|c class_] eqn:Hcl; [discriminate|].
      rewrite <- (split_blank_concat (c :: class_)) by (assumption || discriminate).
      now rewrite Hall. }
  split; [assumption|]. now rewrite Hcl.
Qed.

End ScraperFacts.

(** ** Runs on concrete inputs *)

Module Runs.

Import Catalog Web Sample.

Local Abbreviation upsert_talk := (upsert_talk numeric_affinity random_rowid).
Local Abbreviation insert_or_ignore_file :=
  (insert_or_ignore_file numeric_affinity random_rowid).
Local Abbreviation update_enrichment :=
  (update_enrichment numeric_affinity random_rowid).
Local Abbreviation download_file := (download_file int_of_str).

(** After version 5 of talk 1, version 3 changes nothing. *)
Lemma stale_snapshot_has_no_effect_run :
  let c1 := catalog_of (row_of_talk "Talk A" "recorded" SqlNull SqlNull 5) in
  upsert_talk talk_v5 init_db = (Return tt, c1) /\
  upsert_talk talk_v3 c1 = (Return tt, c1).
Proof.
  cbn zeta.
  assert (H : upsert_talk talk_v5 init_db
              = (Return tt,
                 catalog_of (row_of_talk "Talk A" "recorded" SqlNull SqlNull 5)))
    by (vm_compute; reflexivity).
  split; [exact H|].
  apply (stale_snapshot_has_no_effect numeric_affinity random_rowid
           talk_v5 talk_v3 1 5 3 init_db);
    [reflexivity|reflexivity|reflexivity|reflexivity|lia|exact H].
Defined.

(** After version 5 of talk 1, version 8 leaves what it leaves alone. *)
Lemma newer_snapshot_supersedes_run :
  let c1 := catalog_of (row_of_talk "Talk A" "recorded" SqlNull SqlNull 5) in
  let c2 := catalog_of (row_of_talk "Talk A (final)" "released" SqlNull SqlNull 8) in
  upsert_talk talk_v5 init_db = (Return tt, c1) /\
  upsert_talk talk_v8 init_db = (Return tt, c2) /\
  upsert_talk talk_v8 c1 = (Return tt, c2).
Proof.
  cbn zeta.
  assert (H1 : upsert_talk talk_v5 init_db
               = (Return tt,
                  catalog_of (row_of_talk "Talk A" "recorded" SqlNull SqlNull 5)))
    by (vm_compute; reflexivity).
  assert (H2 : upsert_talk talk_v8 init_db
               = (Return tt,
                  catalog_of (row_of_talk "Talk A (final)" "released"
                                SqlNull SqlNull 8)))
    by (vm_compute; reflexivity).
  split; [exact H1|]. split; [exact H2|].
  apply (newer_snapshot_supersedes numeric_affinity random_rowid
           talk_v5 talk_v8 1 5 8 init_db _ _);
    [reflexivity|reflexivity|reflexivity|reflexivity|lia|exact H1|exact H2].
Defined.

(** Recording the muxed file of talk 1 twice, the second time under
    another local path, leaves one row. *)
Lemma files_hold_one_row_per_triple_run :
  let url := "https://cdn.c3voc.de/relive/38c3/1/muxed.mp4" in
  let c1 := Conn ∅ [FileRow 1 (SqlInt 1) (SqlText "muxed") (SqlText url)
                      (SqlText "download/1/muxed.mp4")] 1 in
  insert_or_ignore_file 1 "muxed" url "download/1/muxed.mp4" init_db
    = (Return tt, c1) /\
  insert_or_ignore_file 1 "muxed" url "elsewhere/muxed.mp4" c1
    = (Return tt, c1) /\
  length (rows_with (SqlInt 1, SqlText "muxed", SqlText url) c1) = 1%nat.
Proof.
  cbn zeta.
  assert (H : insert_or_ignore_file 1 "muxed"
                "https://cdn.c3voc.de/relive/38c3/1/muxed.mp4"
                "download/1/muxed.mp4" init_db
              = (Return tt,
                 Conn ∅ [FileRow 1 (SqlInt 1) (SqlText "muxed")
                           (SqlText "https://cdn.c3voc.de/relive/38c3/1/muxed.mp4")
                           (SqlText "download/1/muxed.mp4")] 1))
    by (vm_compute; reflexivity).
  split; [exact H|].
  destruct (files_hold_one_row_per_triple numeric_affinity random_rowid)
    as (Hinit & _ & Htwice).
  exact (Htwice init_db _ 1 "muxed"
           "https://cdn.c3voc.de/relive/38c3/1/muxed.mp4"
           "download/1/muxed.mp4" "elsewhere/muxed.mp4" Hinit H).
Defined.

(** A transfer that breaks after seven bytes, over an older partial file:
    the call fails and the path is free afterwards. *)
Lemma failed_download_leaves_no_file_run :
  let url := "https://cdn.c3voc.de/relive/38c3/1/muxed.mp4" in
  let dest_path := "download/1/muxed.mp4" in
  let w := disk dest_path "ab" in
  let w' := snd (download_file (short_body true) url dest_path w) in
  download_file (short_body true) url dest_path w = (Return false, w') /\
  fs w' !! dest_path = None.
Proof.
  cbn zeta.
  assert (H : download_file (short_body true)
                "https://cdn.c3voc.de/relive/38c3/1/muxed.mp4"
                "download/1/muxed.mp4" (disk "download/1/muxed.mp4" "ab")
              = (Return false,
                 snd (download_file (short_body true)
                        "https://cdn.c3voc.de/relive/38c3/1/muxed.mp4"
                        "download/1/muxed.mp4"
                        (disk "download/1/muxed.mp4" "ab"))))
    by (vm_compute; reflexivity).
  split; [exact H|].
  exact (failed_download_leaves_no_file int_of_str (short_body true) _ _ _ _ H).
Defined.

(** C5 at the input where it fails. The probe announces 0 bytes and an
    empty file, a complete copy, is at [dest_path]: [download_file] does
    not skip.  It deletes the file and issues the GET request; with the
    server down by then it returns [False] and the file is gone. *)
Theorem empty_file_is_fetched_again :
  let url := "https://cdn.c3voc.de/relive/38c3/1/muxed.mp4" in
  let dest_path := "download/1/muxed.mp4" in
  let w := disk dest_path "" in
  Web.expected_size_of int_of_str (head_of empty_then_down url) = Some 0 /\
  Z.of_nat (String.length "") = 0 /\
  download_file empty_then_down url dest_path w =
    (Return false,
     World ∅
       [ReloadExisting dest_path; Downloading url dest_path; DownloadFailed url]
       [HEAD url; GET url]).
Proof. cbn zeta. repeat split; vm_compute; reflexivity. Qed.

(** C9. A known size of 0 and a body of three bytes that arrives whole:
    [if expected_size and ...] takes the size 0 for no size, so the call
    returns [True] and keeps the three bytes without surfacing the
    mismatch: what it prints last is the line of a successful download,
    not the warning. *)
Theorem empty_size_mismatch_goes_unreported :
  let url := "https://cdn.c3voc.de/relive/38c3/1/muxed.mp4" in
  let dest_path := "download/1/muxed.mp4" in
  Web.expected_size_of int_of_str (head_of empty_announced url) = Some 0 /\
  Z.of_nat (String.length "abc") <> 0 /\
  download_file empty_announced url dest_path nowhere =
    (Return true,
     World {[ dest_path := "abc" ]}
       [Downloading url dest_path; DownloadDone dest_path]
       [HEAD url; GET url]).
Proof.
  cbn zeta. repeat split; vm_compute; (reflexivity || discriminate).
Qed.

(** The transfer of seven bytes where ten were announced succeeds and the
    seven bytes are kept. *)
Lemma size_mismatch_is_not_a_failure_run :
  let url := "https://cdn.c3voc.de/relive/38c3/1/muxed.mp4" in
  let dest_path := "download/1/muxed.mp4" in
  exists w',
    download_file (short_body false) url dest_path nowhere = (Return true, w') /\
    fs w' !! dest_path = Some "abcdefg" /\
    last (stdout w') = Some (SizeWarning dest_path).
Proof.
  cbn zeta.
  destruct (size_mismatch_is_not_a_failure int_of_str (short_body false)
              "https://cdn.c3voc.de/relive/38c3/1/muxed.mp4"
              "download/1/muxed.mp4" nowhere 10 200 ["abcd"; ""; "efg"])
    as (w' & Hrun & Hfile & Hwarn);
    [reflexivity|reflexivity|reflexivity|reflexivity|vm_compute; discriminate|].
  exists w'. split; [exact Hrun|]. split; [exact Hfile|].
  apply Hwarn. discriminate.
Defined.

(** A snapshot without [mtime]: inserted with [last_mtime = 0] on first
    sight, [KeyError] once the row exists. *)
Lemma upsert_talk_needs_mtime_on_update_run :
  let c5 := catalog_of (row_of_talk "Talk A" "recorded" SqlNull SqlNull 5) in
  let c0 := snd (upsert_talk talk_no_mtime init_db) in
  upsert_talk talk_no_mtime init_db = (Return tt, c0) /\
  last_mtime <$> talks c0 !! 1 = Some (SqlInt 0) /\
  upsert_talk talk_no_mtime c5 = (Raise (KeyError "mtime"), c5).
Proof.
  cbn zeta.
  assert (H : upsert_talk talk_no_mtime init_db
              = (Return tt, snd (upsert_talk talk_no_mtime init_db)))
    by (vm_compute; reflexivity).
  destruct (upsert_talk_needs_mtime_on_update numeric_affinity random_rowid
              talk_no_mtime 1 init_db eq_refl eq_refl) as (_ & Hinit).
  destruct (upsert_talk_needs_mtime_on_update numeric_affinity random_rowid
              talk_no_mtime 1
              (catalog_of (row_of_talk "Talk A" "recorded" SqlNull SqlNull 5))
              eq_refl eq_refl) as (_ & Hthere).
  split; [exact H|]. split.
  - destruct (Hinit eq_refl) as (_ & Hnew).
    destruct (Hnew eq_refl) as (_ & Hzero). exact (Hzero _ H).
  - apply (Hthere eq_refl). now eexists.
Defined.

(** [resolve_against] on the examples of RFC 3986, section 5.4. *)
Lemma resolve_against_rfc_examples :
  map (resolve_against "http://a/b/c/d;p?q")
    ["g:h"; "g"; "./g"; "g/"; "/g"; "//g"; "?y"; "g?y"; "#s"; "g#s";
     "g?y#s"; ";x"; "g;x"; "g;x?y#s"; ""; "."; "./"; ".."; "../"; "../g";
     "../.."; "../../"; "../../g"; "../../../g"; "../../../../g"; "/./g";
     "/../g"; "g."; ".g"; "g.."; "..g"; "./../g"; "./g/."; "g/./h";
     "g/../h"; "g;x=1/./y"; "g;x=1/../y"; "g?y/./x"; "g?y/../x";
     "g#s/./x"; "g#s/../x"; "http:g"]
  = ["g:h"; "http://a/b/c/g"; "http://a/b/c/g"; "http://a/b/c/g/";
     "http://a/g"; "http://g"; "http://a/b/c/d;p?y"; "http://a/b/c/g?y";
     "http://a/b/c/d;p?q#s"; "http://a/b/c/g#s"; "http://a/b/c/g?y#s";
     "http://a/b/c/;x"; "http://a/b/c/g;x"; "http://a/b/c/g;x?y#s";
     "http://a/b/c/d;p?q"; "http://a/b/c/"; "http://a/b/c/"; "http://a/b/";
     "http://a/b/"; "http://a/b/g"; "http://a/"; "http://a/"; "http://a/g";
     "http://a/g"; "http://a/g"; "http://a/g"; "http://a/g";
     "http://a/b/c/g."; "http://a/b/c/.g"; "http://a/b/c/g..";
     "http://a/b/c/..g"; "http://a/b/g"; "http://a/b/c/g/";
     "http://a/b/c/g/h"; "http://a/b/c/h"; "http://a/b/c/g;x=1/y";
     "http://a/b/c/y"; "http://a/b/c/g?y/./x"; "http://a/b/c/g?y/../x";
     "http://a/b/c/g#s/./x"; "http://a/b/c/g#s/../x"; "http:g"].
Proof. vm_compute. reflexivity. Qed.

(** Where prefixing the origin is not resolving: a protocol-relative
    target, a target with a dot segment, a target without a slash in
    front. *)
Lemma prefixing_is_not_resolving :
  let origin := "https://media.ccc.de" in
  map (resolve_against origin)
    ["//cdn.media.ccc.de/v"; "/v/../c/38c3"; "v/talk-a"]
  = ["https://cdn.media.ccc.de/v"; "https://media.ccc.de/c/38c3";
     "https://media.ccc.de/v/talk-a"] /\
  map (fun target => origin +:+ target)
    ["//cdn.media.ccc.de/v"; "/v/../c/38c3"; "v/talk-a"]
  = ["https://media.ccc.de//cdn.media.ccc.de/v";
     "https://media.ccc.de/v/../c/38c3"; "https://media.ccc.dev/talk-a"] /\
  map plain_root_path ["//cdn.media.ccc.de/v"; "/v/../c/38c3"; "v/talk-a"]
  = [false; false; false].
Proof. cbn zeta. repeat split; vm_compute; reflexivity. Qed.



(** The codec is read off by substring tests, [.mp3] first: a target
    whose extension is [.opus] and that contains [.mp3] further left is
    tagged mp3. *)
Lemma audio_codec_is_not_the_extension :
  let target := "https://cdn.media.ccc.de/38c3.mp3s/talk-a.opus" in
  let class_ := ["btn"; "btn-default"; "download"; "audio"] in
  let soup := document [audio_button class_ target] in
  fst (parse_release_page pages strip (fun _ => soup)
         "https://media.ccc.de/v/talk-a" nowhere)
    = Return (ReleaseInfo "" "" None [("audio_None_mp3", target)]) /\
  codec_by_extension target = "opus" /\
  audio_filetype class_ target
    <> "audio_" +:+ format (last_language class_) +:+ "_"
       +:+ codec_by_extension target.
Proof. cbn zeta. repeat split; vm_compute; (reflexivity || discriminate). Qed.

(** Two audio buttons, the same one twice: both pairs are collected. *)
Lemma audio_tags_follow_class_and_target_run :
  let target := "https://cdn.media.ccc.de/38c3/talk-a.opus" in
  let button :=
    audio_button ["btn"; "btn-default"; "download"; "audio"] target in
  let soup := document [button; button] in
  exists info,
    fst (parse_release_page pages strip (fun _ => soup)
           "https://media.ccc.de/v/talk-a" nowhere) = Return info /\
    audio_urls info = [("audio_None_opus", target); ("audio_None_opus", target)].
Proof.
  cbn zeta.
  destruct (audio_tags_follow_class_and_target pages strip
              (fun _ =>
                 document
                   [audio_button ["btn"; "btn-default"; "download"; "audio"]
                      "https://cdn.media.ccc.de/38c3/talk-a.opus";
                    audio_button ["btn"; "btn-default"; "download"; "audio"]
                      "https://cdn.media.ccc.de/38c3/talk-a.opus"])
              "https://media.ccc.de/v/talk-a" nowhere) as (_ & Hpage).
  destruct (Hpage 200 "<html>" eq_refl eq_refl) as (info & Hrun & Haudio).
  exists info. split; [now rewrite Hrun|]. rewrite Haudio.
  vm_compute. reflexivity.
Defined.

(** C7. The scenario of the specification, an audio button with the class
    token [deu] next to the four tokens of the selector and a target
    ending in [.opus]: the loop body would tag it [audio_deu_opus], but
    the selector lets through only the links whose class attribute is
    exactly its four tokens, so [parse_release_page] yields no pair for
    the button. *)
Lemma language_button_is_not_selected :
  let target := "https://cdn.media.ccc.de/38c3/talk-a.opus" in
  let class_ := ["btn"; "btn-default"; "download"; "audio"; "deu"] in
  let soup := document [audio_button class_ target] in
  audio_filetype class_ target = "audio_deu_opus" /\
  fst (parse_release_page pages strip (fun _ => soup)
         "https://media.ccc.de/v/talk-a" nowhere)
    = Return (ReleaseInfo "" "" None []).
Proof. cbn zeta. split; vm_compute; reflexivity. Qed.

(** C8 as stated fails when only one of the two strings is found: the
    release page names the persons and has no description, and the
    description stored before is overwritten by the empty string. *)
Lemma enrichment_clobbers_description :
  let found := ReleaseInfo "Alice, Bob" "" None [] in
  let c' := snd (update_enrichment 1 (Web.authors found)
                   (Web.description found) enriched) in
  fst (parse_release_page pages strip (fun _ => persons_only)
         "https://media.ccc.de/v/talk-a" nowhere) = Return found /\
  Catalog.description <$> talks enriched !! 1 = Some (SqlText "All about A.") /\
  update_enrichment 1 (Web.authors found) (Web.description found) enriched
    = (Return tt, c') /\
  Catalog.description <$> talks c' !! 1 = Some (SqlText "").
Proof. cbn zeta. repeat split; vm_compute; reflexivity. Qed.

(** A scrape that finds nothing changes nothing; one that finds the
    authors only stores both strings. *)
Lemma enrichment_stores_both_strings_run :
  update_enrichment 1 "" "" enriched = (Return tt, enriched) /\
  talks (snd (update_enrichment 1 "Alice" "" enriched)) !! 1
    = Some (row_of_talk "Talk A" "released" (SqlText "Alice") (SqlText "") 5).
Proof.
  destruct (enrichment_stores_both_strings numeric_affinity random_rowid
              1 "" "" enriched) as (Hnone & _).
  destruct (enrichment_stores_both_strings numeric_affinity random_rowid
              1 "Alice" "" enriched) as (_ & Hsome).
  split; [exact (Hnone eq_refl eq_refl)|].
  apply (Hsome (row_of_talk "Talk A" "released" (SqlText "Alice, Bob")
                  (SqlText "All about A.") 5));
    [left; discriminate|reflexivity|vm_compute; reflexivity].
Defined.

End Runs.

(** ** More about the catalog: frames, failures, the clock *)

Section CatalogFrames.

Import Catalog Frames.

Variable numeric_affinity : string -> sqlval.
Variable random_rowid : gmap Z talk_row -> option Z.

Local Abbreviation upsert_talk := (upsert_talk numeric_affinity random_rowid).
Local Abbreviation run := (run numeric_affinity random_rowid).
Local Abbreviation execute := (execute numeric_affinity random_rowid).
Local Abbreviation row_of := (row_of numeric_affinity).
Local Abbreviation insert_or_ignore_file :=
  (insert_or_ignore_file numeric_affinity random_rowid).
Local Abbreviation insert_or_ignore_files :=
  (insert_or_ignore_files numeric_affinity random_rowid).
Local Abbreviation update_enrichment :=
  (update_enrichment numeric_affinity random_rowid).

Lemma bind_raise_inv {S A B} (c : M S A) (k : A -> M S B) (s s' : S) (e : exn) :
  bind c k s = (Raise e, s') ->
  c s = (Raise e, s') \/
  exists a s1, c s = (Return a, s1) /\ k a s1 = (Raise e, s').
Proof.
  unfold bind. destruct (c s) as [[a|e'] s1] eqn:Hc; intros H.
  - right. now exists a, s1.
  - left. now injection H as -> ->.
Qed.

(** A statement that raises has written nothing. *)
Lemma run_raise (stmt : statement) (ps : list sqlval) (c c' : conn) (e : exn) :
  run stmt ps c = (Raise e, c') -> c' = c.
Proof.
  intros H. cbv [Catalog.run bind get_state set_talks put_state ret raise] in H.
  destruct stmt;
    do 10 (try (destruct ps as [|? ps])); repeat case_match; congruence.
Qed.

Lemma execute_raise (stmt : statement) (l : list pyval) (c c' : conn) (e : exn) :
  execute stmt l c = (Raise e, c') -> c' = c.
Proof.
  unfold Catalog.execute. intros H.
  apply bind_raise_inv in H as [H|(ps & c1 & H1 & H)].
  - unfold lift in H. congruence.
  - unfold lift in H1. injection H1 as _ <-. now apply run_raise in H.
Qed.

(** The SELECT on [talks] writes nothing either. *)
Lemma execute_select_talk (l : list pyval) (c c' : conn)
    (r : result (list (list sqlval))) :
  execute SELECT_talk l c = (r, c') -> c' = c.
Proof.
  intros H. cbv [Catalog.execute Catalog.run bind lift get_state ret raise] in H.
  destruct (traverse adapt l) as [ps|]; [|congruence].
  do 2 (try (destruct ps as [|? ps])); repeat case_match; congruence.
Qed.

Lemma lift_state {S A} (r r' : result A) (s s' : S) :
  lift r s = (r', s') -> s' = s.
Proof. unfold lift. congruence. Qed.

(** X1. [upsert_talk] is all or nothing: whatever the snapshot holds, a
    call that raises leaves the catalog exactly as it found it. *)
Theorem upsert_talk_raises_unchanged (talk_data : dict) (c c' : conn) (e : exn) :
  upsert_talk talk_data c = (Raise e, c') -> c' = c.
Proof.
  unfold Catalog.upsert_talk. intros H.
  apply bind_raise_inv in H as [H|(id & c1 & H1 & H)];
    [now apply lift_state in H|].
  apply lift_state in H1. subst c1.
  apply bind_raise_inv in H as [H|(rows & c1 & H1 & H)];
    [now apply execute_raise in H|].
  apply execute_select_talk in H1. subst c1.
  destruct (fetchone rows) as [row|].
  - apply bind_raise_inv in H as [H|(mtime & c1 & H1 & H)];
      [now apply lift_state in H|].
    apply lift_state in H1. subst c1.
    apply bind_raise_inv in H as [H|(newer & c1 & H1 & H)];
      [now apply lift_state in H|].
    apply lift_state in H1. subst c1.
    apply bind_raise_inv in H as [H|(? & c1 & _ & H)]; [|discriminate].
    destruct newer; [|discriminate].
    apply bind_raise_inv in H as [H|(id' & c1 & H1 & H)];
      [now apply lift_state in H|].
    apply lift_state in H1. subst c1.
    apply bind_raise_inv in H as [H|(? & c1 & _ & H)]; [|discriminate].
    now apply execute_raise in H.
  - apply bind_raise_inv in H as [H|(id' & c1 & H1 & H)];
      [now apply lift_state in H|].
    apply lift_state in H1. subst c1.
    apply bind_raise_inv in H as [H|(? & c1 & _ & H)]; [|discriminate].
    now apply execute_raise in H.
Qed.

Lemma bind_inv {S A B} (c : M S A) (k : A -> M S B) (s s' : S) (r : result B) :
  bind c k s = (r, s') ->
  (exists e, c s = (Raise e, s') /\ r = Raise e) \/
  exists a s1, c s = (Return a, s1) /\ k a s1 = (r, s').
Proof.
  unfold bind. destruct (c s) as [[a|e] s1] eqn:Hc; intros H.
  - right. now exists a, s1.
  - left. exists e. now injection H as <- <-.
Qed.

(** What the three statements on [talks] can do: nothing, or write the
    row of one rowid; [files] is out of their reach. *)
Lemma run_talks_effect (stmt : statement) (ps : list sqlval) (c c' : conn)
    (r : result (list (list sqlval))) :
  stmt = SELECT_talk \/ stmt = INSERT_talk \/ stmt = UPDATE_talk ->
  run stmt ps c = (r, c') ->
  files c' = files c /\ files_seq c' = files_seq c /\
  (talks c' = talks c \/ exists k row, talks c' = <[k := row]> (talks c)).
Proof.
  intros Hstmt H.
  cbv [Catalog.run bind get_state set_talks put_state ret raise] in H.
  destruct Hstmt as [->|[->| ->]];
    do 10 (try (destruct ps as [|? ps])); repeat case_match;
    injection H as <- <-; cbn [files files_seq talks];
    (split; [reflexivity|split; [reflexivity|]]);
    try (left; reflexivity); right; eauto.
Qed.

Lemma execute_talks_effect (stmt : statement) (l : list pyval) (c c' : conn)
    (r : result (list (list sqlval))) :
  stmt = SELECT_talk \/ stmt = INSERT_talk \/ stmt = UPDATE_talk ->
  execute stmt l c = (r, c') ->
  files c' = files c /\ files_seq c' = files_seq c /\
  (talks c' = talks c \/ exists k row, talks c' = <[k := row]> (talks c)).
Proof.
  intros Hstmt H. unfold Catalog.execute in H.
  apply bind_inv in H as [(e & H & _)|(ps & c1 & H1 & H)].
  - apply lift_state in H. subst c'. repeat split; now left.
  - apply lift_state in H1. subst c1.
    exact (run_talks_effect stmt ps c c' r Hstmt H).
Qed.

Lemma one_talk_written_refl (c : conn) : one_talk_written c c.
Proof. repeat split. now left. Qed.

Tactic Notation "lift_step" hyp(H) ident(a) :=
  let H1 := fresh "H" in
  apply bind_inv in H as [(? & H & _)|(a & ? & H1 & H)];
  [apply lift_state in H; subst; apply one_talk_written_refl
  |apply lift_state in H1; subst].

(** [upsert_talk] runs one SELECT and at most one INSERT or UPDATE. *)
Lemma upsert_talk_effect (talk_data : dict) (c c' : conn) (r : result unit) :
  upsert_talk talk_data c = (r, c') -> one_talk_written c c'.
Proof.
  unfold Catalog.upsert_talk. intros H.
  lift_step H v.
  apply bind_inv in H as [(? & H & _)|(rows & c1 & H1 & H)].
  { apply execute_select_talk in H. subst. apply one_talk_written_refl. }
  apply execute_select_talk in H1. subst c1.
  destruct (fetchone rows) as [row|].
  - lift_step H mtime. lift_step H newer.
    assert (Hif : forall r1 c1,
              (if newer : bool then
                 i <- lift (getitem talk_data "id") ;;
                 execute UPDATE_talk
                   [get talk_data "guid"; get talk_data "title";
                    get talk_data "room"; get talk_data "status";
                    get talk_data "start"; get talk_data "duration";
                    get talk_data "release_url"; get talk_data "mtime"; i] ;;
                 ret tt
               else ret tt) c = (r1, c1) -> one_talk_written c c1).
    { intros r1 c1 Hif. destruct newer;
        [|injection Hif as _ <-; apply one_talk_written_refl].
      lift_step Hif v'.
      apply bind_inv in Hif as [(? & Hif & _)|(? & c2 & H2 & Hif)].
      - apply (execute_talks_effect UPDATE_talk _ _ _ _) in Hif;
          [exact Hif|auto].
      - injection Hif as _ <-.
        apply (execute_talks_effect UPDATE_talk _ _ _ _) in H2;
          [exact H2|auto]. }
    apply bind_inv in H as [(? & H & _)|(? & c1 & H1 & H)].
    + now apply Hif in H.
    + injection H as _ <-. now apply Hif in H1.
  - lift_step H v'.
    apply bind_inv in H as [(? & H & _)|(? & c1 & H1 & H)].
    + apply (execute_talks_effect INSERT_talk _ _ _ _) in H; [exact H|auto].
    + injection H as _ <-.
      apply (execute_talks_effect INSERT_talk _ _ _ _) in H1; [exact H1|auto].
Qed.

(** X2. [upsert_talk] stays within [talks]: whatever the snapshot holds
    and however the call ends, the table [files] is untouched and no talk
    that was in the catalog is missing afterwards. *)
Theorem upsert_talk_keeps_what_is_there
    (talk_data : dict) (c c' : conn) (r : result unit) :
  upsert_talk talk_data c = (r, c') ->
  files c' = files c /\ files_seq c' = files_seq c /\
  dom (talks c) ⊆ dom (talks c').
Proof.
  intros H. apply upsert_talk_effect in H as (Hf & Hs & Ht).
  split; [exact Hf|]. split; [exact Hs|].
  destruct Ht as [->|(k & row & ->)]; [reflexivity|].
  rewrite dom_insert_L. set_solver.
Qed.

Lemma row_of_enrichment_columns (ps : list sqlval) (a d : sqlval) (r : talk_row) :
  row_of ps a d = Some r -> authors r = a /\ description r = d.
Proof.
  unfold Catalog.row_of. do 9 (destruct ps as [|? ps]; try discriminate).
  now intros [= <-].
Qed.

(** X3. With an integer id [i], [upsert_talk] writes the row of [i] and no
    other row, and it never writes the enrichment columns: a row that was
    there keeps its [authors] and [description], however the call ends. *)
Theorem upsert_talk_keeps_enrichment
    (talk_data : dict) (i : Z) (c c' : conn) (r : result unit) :
  talk_data !! "id" = Some (PInt i) ->
  upsert_talk talk_data c = (r, c') ->
  (forall j : Z, j <> i -> talks c' !! j = talks c !! j) /\
  (forall old : talk_row,
     talks c !! i = Some old ->
     exists new, talks c' !! i = Some new /\
                 authors new = authors old /\
                 description new = description old).
Proof.
  intros Hid H.
  assert (Hcases :
    c' = c \/
    exists row, c' = with_talks c (<[i := row]> (talks c)) /\
      forall old, talks c !! i = Some old ->
                  authors row = authors old /\
                  description row = description old).
  { destruct (talks c !! i) as [old|] eqn:Hi.
    - rewrite (upsert_talk_existing _ _ _ _ _ _ Hid Hi) in H.
      repeat case_match; injection H as _ <-; try (now left).
      right. eexists. split; [reflexivity|]. intros old' [= <-].
      eapply row_of_enrichment_columns; eassumption.
    - rewrite (upsert_talk_new _ _ _ _ _ Hid Hi) in H.
      repeat case_match; injection H as _ <-; try (now left).
      right. eexists. split; [reflexivity|]. discriminate. }
  destruct Hcases as [->|(row & -> & Hrow)].
  - split; [reflexivity|]. intros old Hold. now exists old.
  - cbn [talks with_talks]. split.
    + intros j Hj. now rewrite lookup_insert_ne.
    + intros old Hold. exists row. split; [apply lookup_insert_eq|].
      now apply Hrow.
Qed.

(** X4. The stored clock after [upsert_talk] is the larger of the stored
    and the incoming one.  For an integer id and an integer [mtime] [m],
    when the call returns: a first-seen id ends with clock [m]; a row
    whose clock ([last_mtime], NULL and 0 counting as 0) was [e] ends with
    clock [max e m]. *)
Theorem upsert_talk_clock_is_max
    (talk_data : dict) (i m : Z) (c c' : conn) :
  talk_data !! "id" = Some (PInt i) ->
  talk_data !! "mtime" = Some (PInt m) ->
  upsert_talk talk_data c = (Return tt, c') ->
  exists new,
    talks c' !! i = Some new /\
    match talks c !! i with
    | None => existing_mtime (last_mtime new) = PInt m
    | Some old =>
        exists e, existing_mtime (last_mtime old) = PInt e /\
                  existing_mtime (last_mtime new) = PInt (Z.max e m)
    end.
Proof.
  intros Hid Hm H.
  destruct (upsert_talk_applied _ _ _ _ _ _ _ Hid Hm H)
    as [_ [[-> (old & e & Hi & He & Hle)]|(ps & r & a & d & Hps & Hr & -> & Hc)]].
  - exists old. split; [exact Hi|]. rewrite Hi. exists e. split; [exact He|].
    rewrite He. f_equal. lia.
  - exists r. cbn [talks with_talks]. split; [apply lookup_insert_eq|].
    destruct (row_of_stored _ _ _ _ _ _ _ Hps Hr) as (Hlast & _).
    rewrite Hlast, existing_mtime_int.
    destruct (talks c !! i) as [old|]; [|reflexivity].
    destruct Hc as (_ & _ & e & He & Hlt). exists e. split; [exact He|].
    f_equal. lia.
Qed.

(** X5. A snapshot whose [mtime] is [None] (JSON null) goes in once: with
    an integer id, a call that returns has inserted the row, and the same
    snapshot applied again raises [TypeError] from the comparison and
    leaves the catalog as it is. *)
Theorem upsert_talk_null_mtime_raises_on_update
    (talk_data : dict) (i : Z) (c c1 : conn) :
  talk_data !! "id" = Some (PInt i) ->
  talk_data !! "mtime" = Some PNone ->
  upsert_talk talk_data c = (Return tt, c1) ->
  talks c !! i = None /\
  is_Some (talks c1 !! i) /\
  upsert_talk talk_data c1 = (Raise TypeError, c1).
Proof.
  intros Hid Hm H.
  destruct (talks c !! i) as [old|] eqn:Hi.
  { rewrite (upsert_talk_existing _ _ _ _ _ _ Hid Hi) in H.
    rewrite (getitem_lookup _ _ _ Hm) in H. cbn [gt] in H.
    now destruct (int64 i). }
  split; [reflexivity|].
  rewrite (upsert_talk_new _ _ _ _ _ Hid Hi) in H.
  destruct (int64 i) eqn:Hr; [|discriminate].
  destruct (traverse adapt _) as [ps|]; [|discriminate].
  destruct (Catalog.row_of _ ps _ _) as [row|]; [|discriminate].
  injection H as <-.
  assert (Hrow : talks (with_talks c (<[i := row]> (talks c))) !! i = Some row)
    by apply lookup_insert_eq.
  split; [exists row; exact Hrow|].
  rewrite (upsert_talk_existing _ _ _ _ _ _ Hid Hrow), Hr.
  now rewrite (getitem_lookup _ _ _ Hm).
Qed.

Lemma fold_max_ge (l : list Z) (seq x : Z) :
  In x l -> x <= fold_right Z.max seq l.
Proof.
  induction l as [|y l IH]; cbn [In fold_right]; [tauto|].
  intros [->|Hin]; [lia|]. specialize (IH Hin). lia.
Qed.

(** X6. [insert_or_ignore_file] only ever appends: however the call ends,
    [talks] is untouched and [files] is either unchanged or longer by one
    row at its end; that row carries the triple and the local path of the
    call, and an id larger than every id in the table. *)
Theorem insert_or_ignore_file_appends
    (t : Z) (ty u p : string) (c c' : conn) (r : result unit) :
  insert_or_ignore_file t ty u p c = (r, c') ->
  talks c' = talks c /\
  (files c' = files c \/
   exists row,
     files c' = files c ++ [row] /\
     triple row = (SqlInt t, SqlText ty, SqlText u) /\
     local_path row = SqlText p /\
     Forall (fun old => file_id old < file_id row) (files c)).
Proof.
  rewrite insert_or_ignore_file_eq. intros H.
  repeat case_match; injection H as _ <-; (split; [reflexivity|]);
    try (now left).
  right. eexists. split; [reflexivity|]. repeat split.
  cbn [file_id]. apply List.Forall_forall. intros old Hold.
  unfold next_file_id.
  pose proof (fold_max_ge (map file_id (files c)) (files_seq c) (file_id old)
                (in_map file_id _ _ Hold)).
  lia.
Qed.

(** X7. [insert_or_ignore_file] fails in two ways only, and then writes
    nothing: [OverflowError] for a talk id beyond 64 bits, and
    [OperationalError] when the rowids of [files] are used up.  With a
    64-bit talk id and a rowid left it returns. *)
Theorem insert_or_ignore_file_failures
    (t : Z) (ty u p : string) (c : conn) :
  (int64 t = true -> next_file_id c <= max_rowid ->
   exists c', insert_or_ignore_file t ty u p c = (Return tt, c')) /\
  (forall (e : exn) (c' : conn),
     insert_or_ignore_file t ty u p c = (Raise e, c') ->
     c' = c /\
     (e = OverflowError /\ int64 t = false \/
      e = OperationalError /\ max_rowid < next_file_id c)).
Proof.
  rewrite insert_or_ignore_file_eq. split.
  - intros -> Hnext. destruct (rows_with _ c); [|now eexists].
    destruct (Z.ltb_spec (next_file_id c - 1) max_rowid); [now eexists|lia].
  - intros e c' H. destruct (int64 t).
    + destruct (rows_with _ c); [|discriminate].
      destruct (Z.ltb_spec (next_file_id c - 1) max_rowid); [discriminate|].
      injection H as <- <-. split; [reflexivity|]. right. split; [reflexivity|lia].
    + injection H as <- <-. split; [reflexivity|]. now left.
Qed.

(** X8. The enrichment update stays in its two columns: however it ends,
    [files] is untouched, no talk appears or disappears, every other row
    is unchanged, and the row of [talk_id] keeps all its other columns. *)
Theorem update_enrichment_frame
    (i : Z) (a d : string) (c c' : conn) (r : result unit) :
  update_enrichment i a d c = (r, c') ->
  files c' = files c /\ files_seq c' = files_seq c /\
  dom (talks c') = dom (talks c) /\
  (forall j : Z, j <> i -> talks c' !! j = talks c !! j) /\
  (forall old new : talk_row,
     talks c !! i = Some old -> talks c' !! i = Some new ->
     same_snapshot old new).
Proof.
  rewrite update_enrichment_eq. intros H.
  assert (Hrefl :
    files c = files c /\ files_seq c = files_seq c /\
    dom (talks c) = dom (talks c) /\
    (forall j : Z, j <> i -> talks c !! j = talks c !! j) /\
    (forall old new : talk_row,
       talks c !! i = Some old -> talks c !! i = Some new ->
       same_snapshot old new)).
  { do 4 (split; [reflexivity|]). intros old new Hold. rewrite Hold.
    intros [= <-]. repeat split. }
  destruct (truthy (PStr a) || truthy (PStr d));
    [|injection H as _ <-; exact Hrefl].
  destruct (int64 i); [|injection H as _ <-; exact Hrefl].
  destruct (talks c !! i) as [old|] eqn:Hi;
    [|injection H as _ <-; rewrite Hi; exact Hrefl].
  injection H as _ <-. cbn [files files_seq talks with_talks].
  split; [reflexivity|]. split; [reflexivity|]. split; [|split].
  - apply dom_insert_lookup_L. now exists old.
  - intros j Hj. now rewrite lookup_insert_ne.
  - intros old' new [= <-]. rewrite lookup_insert_eq. intros [= <-].
    repeat split.
Qed.

End CatalogFrames.

(** ** More about the asset fetcher *)

Section FetcherFrames.

Import Web.

Variable int_of_str : string -> option Z.
Variable net : network.

Local Abbreviation download_file := (download_file int_of_str net).
Local Abbreviation expected_size_of := (expected_size_of int_of_str).


(** X10. [download_file] writes to [dest_path] only: every other path
    holds after the call what it held before. *)
Theorem download_file_touches_one_path
    (url dest_path path : string) (w w' : world) (r : result bool) :
  download_file url dest_path w = (r, w') ->
  path <> dest_path ->
  fs w' !! path = fs w !! path.
Proof.
  rewrite download_file_eq. cbn zeta. intros H Hne.
  repeat case_match; injection H as _ <-; cbn [fs said cleared];
    try reflexivity;
    try (now rewrite lookup_delete_ne by congruence);
    now rewrite lookup_insert_ne by congruence.
Qed.

(** X11. A download that reports success has a file to show: whenever
    [download_file] returns [True], a file exists at [dest_path]. *)
Theorem successful_download_leaves_a_file
    (url dest_path : string) (w w' : world) :
  download_file url dest_path w = (Return true, w') ->
  is_Some (fs w' !! dest_path).
Proof.
  rewrite download_file_eq. cbn zeta.
  destruct (already_complete _ dest_path w) eqn:Hc.
  - intros [= <-]. cbn [fs]. unfold already_complete in Hc.
    destruct (fs w !! dest_path); [now eexists|].
    now rewrite andb_false_r in Hc.
  - intros H. repeat case_match; try discriminate;
      injection H as <-; cbn [fs]; rewrite lookup_insert_eq; now eexists.
Qed.

(** X12. A probe that yields no size is not fatal and does not let the
    call skip: when the HEAD request fails, or answers with an error
    status, no [Content-Length] or one that is no number, and the body
    then arrives whole, the call has sent the HEAD and the GET request,
    returns [True], and the file holds exactly the chunks in order,
    whatever was there before. *)
Theorem download_without_known_size
    (url dest_path : string) (w : world) (status_code : Z)
    (chunks : list bytes) :
  expected_size_of (head_of net url) = None ->
  get_of net url = GetResponse status_code chunks false ->
  is_error status_code = false ->
  exists w',
    download_file url dest_path w = (Return true, w') /\
    fs w' = <[dest_path := joined chunks]> (fs w) /\
    sent w' = sent w ++ [HEAD url; GET url].
Proof.
  intros He Hget Hok. rewrite download_file_eq. cbn zeta.
  rewrite He, Hget, Hok. cbn [already_complete known andb].
  eexists. split; [reflexivity|]. now split.
Qed.

(** X13. Downloads converge: when the server announces a size [n] other
    than 0 and delivers a body of that size, a first call returns [True],
    and a second call on the world the first one left returns [True]
    after the HEAD request alone, the file untouched. *)
Theorem second_download_is_skipped
    (url dest_path : string) (w : world) (n status_code : Z)
    (chunks : list bytes) :
  expected_size_of (head_of net url) = Some n -> n <> 0 ->
  get_of net url = GetResponse status_code chunks false ->
  is_error status_code = false ->
  Z.of_nat (String.length (joined chunks)) = n ->
  exists w1,
    download_file url dest_path w = (Return true, w1) /\
    download_file url dest_path w1 =
      (Return true,
       World (fs w1) (stdout w1 ++ [AlreadyComplete dest_path])
         (sent w1 ++ [HEAD url])).
Proof.
  intros He Hn Hget Hok Hlen.
  assert (Hfirst : exists w1 content,
            download_file url dest_path w = (Return true, w1) /\
            fs w1 !! dest_path = Some content /\
            Z.of_nat (String.length content) = n).
  { rewrite download_file_eq. cbn zeta. rewrite He, Hget, Hok.
    destruct (already_complete (Some n) dest_path w) eqn:Hc.
    - unfold already_complete in Hc. apply andb_prop in Hc as [_ Hc].
      destruct (fs w !! dest_path) as [content|] eqn:Hf; [|discriminate].
      cbn [size_is] in Hc. apply Z.eqb_eq in Hc.
      eexists _, content. split; [reflexivity|]. cbn [fs].
      split; assumption.
    - do 2 eexists. split; [reflexivity|]. cbn [fs].
      split; [apply lookup_insert_eq|exact Hlen]. }
  destruct Hfirst as (w1 & content & Hrun & Hf & Hsize).
  exists w1. split; [exact Hrun|].
  exact (complete_file_is_not_fetched_again int_of_str net url dest_path w1 n
           content He Hn Hf Hsize).
Qed.

End FetcherFrames.

(** ** More about the page scrapers *)

Section ScraperFrames.

Import Web.

Variable net : network.
Variable lower : string -> string.
Variable strip : string -> string.
Variable html_parser : string -> node.

Local Abbreviation get_release_url_from_website :=
  (get_release_url_from_website net lower strip html_parser).
Local Abbreviation parse_release_page :=
  (parse_release_page net strip html_parser).
Local Abbreviation first_match := (first_match lower strip).
Local Abbreviation display_link := (display_link strip).
Local Abbreviation listing_entries := (listing_entries strip).

(** The fetch that opens [parse_release_page]. *)
Lemma release_page_fetch (release_url : string) (w : world) :
  try_except
    (resp <- requests_get_page net release_url ;;
     let '(status_code, text) := resp in
     raise_for_status status_code ;;
     ret (Some text))
    is_request_exception
    (print (ReleasePageFailed release_url) ;; ret None) w
  = let w1 := World (fs w) (stdout w) (sent w ++ [GET release_url]) in
    match page_of net release_url with
    | PageFailed => (Return None, said (ReleasePageFailed release_url) w1)
    | PageResponse status_code text =>
        if is_error status_code
        then (Return None, said (ReleasePageFailed release_url) w1)
        else (Return (Some text), w1)
    end.
Proof.
  unfold try_except, requests_get_page, raise_for_status.
  cbv [bind send ret raise print said fs stdout sent].
  destruct (page_of net release_url) as [|status_code text]; [reflexivity|].
  now destruct (is_error status_code).
Qed.


Lemma audio_entry_url (a : node) (tag url : string) :
  audio_entry a = Some (tag, url) -> url <> "".
Proof.
  unfold audio_entry. destruct (get_href a) as [href|]; [|discriminate].
  destruct (String.eqb_spec href ""); [discriminate|]. now intros [= _ <-].
Qed.

(** X15. What [parse_release_page] hands on is usable: a [video_hd_url]
    is never empty, contains [h264-hd] and ends in [.mp4]; no pair of
    [audio_urls] has an empty url. *)
Theorem parse_release_page_yields_usable_urls
    (release_url : string) (w w' : world) (info : release_info) :
  parse_release_page release_url w = (Return info, w') ->
  (forall u : string,
     video_hd_url info = Some u ->
     u <> "" /\ str_in "h264-hd" u = true /\ endswith u ".mp4" = true) /\
  (forall tag url : string, In (tag, url) (audio_urls info) -> url <> "").
Proof.
  unfold Web.parse_release_page. cbn zeta.
  unfold bind at 1. rewrite release_page_fetch. cbn zeta.
  assert (Hempty :
    (forall u : string,
       video_hd_url (ReleaseInfo "" "" None []) = Some u ->
       u <> "" /\ str_in "h264-hd" u = true /\ endswith u ".mp4" = true) /\
    (forall tag url : string,
       In (tag, url) (audio_urls (ReleaseInfo "" "" None [])) -> url <> ""))
    by (split; [discriminate|intros ? ? []]).
  destruct (page_of net release_url) as [|status_code text];
    [now intros [= <- _]|].
  destruct (is_error status_code); [now intros [= <- _]|].
  intros [= <- _]. cbn [video_hd_url audio_urls]. split.
  - intros u Hu.
    destruct (find (html_parser text) "a" is_hd_link) as [hd_btn|] eqn:Hfind;
      [|discriminate].
    apply find_test in Hfind. unfold is_hd_link in Hfind. rewrite Hu in Hfind.
    apply andb_prop in Hfind as [Hfind Hend].
    apply andb_prop in Hfind as [Hne Hin].
    split; [|now split]. intros ->. discriminate.
  - intros tag url. rewrite audio_loop_eq. cbn [app]. intros Hin.
    apply list_elem_of_In, list_elem_of_omap in Hin as (a & _ & Ha).
    exact (audio_entry_url a tag url Ha).
Qed.

(** The loop of the resolver on a title that is no str. *)
Lemma first_match_no_str (title : pyval) (base_url : string)
    (event_previews : list node) :
  (forall t : string, title <> PStr t) ->
  first_match title base_url event_previews =
    match omap display_link event_previews with
    | [] => Return None
    | _ :: _ => Raise AttributeError
    end.
Proof.
  intros Hno. induction event_previews as [|preview rest IH]; [reflexivity|].
  cbn [Web.first_match omap list_omap]. unfold display_link at 1.
  unfold Web.display_link.
  destruct (find preview "div" _) as [caption|]; cbn [mbind option_bind];
    [|exact IH].
  destruct (find caption "h3" _) as [h3_tag|]; cbn [mbind option_bind];
    [|exact IH].
  destruct (find h3_tag "a" has_href) as [a_tag|] eqn:Ha;
    cbn [mbind option_bind]; [|exact IH].
  apply find_test in Ha. unfold has_href in Ha.
  destruct (get_href a_tag) as [relative_href|]; [|discriminate].
  cbn [mbind option_bind]. destruct title as [| |t]; try reflexivity.
  now contradiction (Hno t).
Qed.


Lemma find_first (A : Type) (f : A -> bool) (l : list A) :
  (forall x, f x = true) -> List.find f l = head l.
Proof. intros Hf. destruct l as [|x l]; [reflexivity|]. cbn. now rewrite Hf. Qed.


End ScraperFrames.

(** ** Facts about [main] *)

Section MainFacts.

Import Catalog Web Frames Main.

Variable numeric_affinity : string -> sqlval.
Variable random_rowid : gmap Z talk_row -> option Z.
Variable int_of_str : string -> option Z.
Variable net : network.
Variable lower : string -> string.
Variable strip : string -> string.
Variable html_parser : string -> node.
Variable json_loads : string -> option (list dict).

Local Abbreviation process_entry :=
  (process_entry numeric_affinity random_rowid int_of_str net lower strip
     html_parser).
Local Abbreviation main :=
  (main numeric_affinity random_rowid int_of_str net lower strip html_parser
     json_loads).
Local Abbreviation upsert_talk := (upsert_talk numeric_affinity random_rowid).
Local Abbreviation insert_or_ignore_file :=
  (insert_or_ignore_file numeric_affinity random_rowid).
Local Abbreviation update_enrichment :=
  (update_enrichment numeric_affinity random_rowid).
Local Abbreviation download_file := (download_file int_of_str net).

Lemma later_refl (s : process) : later s s.
Proof.
  unfold later, grown. repeat split; try reflexivity; auto.
  exists []. rewrite app_nil_r. auto.
Qed.

Lemma vouched_app (l l' : list message) (row : file_row) :
  vouched l row \/ vouched l' row -> vouched (l ++ l') row.
Proof.
  intros [(path & m & Hp & Hm & Hs)|(path & m & Hp & Hm & Hs)];
    exists path, m; (split; [exact Hp|]); (split; [|exact Hs]);
    apply elem_of_app; auto.
Qed.

Lemma later_trans (s1 s2 s3 : process) :
  later s1 s2 -> later s2 s3 -> later s1 s3.
Proof.
  intros ([Ht1 Hf1] & Hu1 & (l1 & Ho1 & Hr1) & Hp1)
         ([Ht2 Hf2] & Hu2 & (l2 & Ho2 & Hr2) & Hp2).
  split; [split; etrans; eassumption|].
  split; [auto|]. split.
  - exists (l1 ++ l2). split; [now rewrite Ho2, Ho1, (assoc_L (++))|].
    intros row Hrow. destruct (Hr2 row Hrow) as [Hin|Hv].
    + destruct (Hr1 row Hin) as [Hin'|Hv]; [now left|].
      right. apply vouched_app. now left.
    + right. apply vouched_app. now right.
  - intros path Hpath. now rewrite Hp2, Hp1.
Qed.

Lemma moves_on_done {A} (a : A) : moves_on (done a).
Proof. intros s r s' [= _ <-]. apply later_refl. Qed.

Lemma moves_on_stop {A} (h : halt) : moves_on (@stop A h).
Proof. intros s r s' [= _ <-]. apply later_refl. Qed.

Lemma moves_on_eval {A} (r : result A) : moves_on (eval r).
Proof. destruct r; [apply moves_on_done|apply moves_on_stop]. Qed.

Lemma moves_on_next {A B} (c : Run A) (k : A -> Run B) :
  moves_on c -> (forall a, moves_on (k a)) -> moves_on (next c k).
Proof.
  intros Hc Hk s r s'. unfold next.
  destruct (c s) as [[a|h] s1] eqn:Hcs.
  - intros Hks. exact (later_trans _ _ _ (Hc _ _ _ Hcs) (Hk a _ _ _ Hks)).
  - intros [= _ <-]. exact (Hc _ _ _ Hcs).
Qed.

Lemma moves_on_each {A} (l : list A) (body : A -> Run unit) :
  (forall x, moves_on (body x)) -> moves_on (each l body).
Proof.
  intros Hbody. induction l as [|x l IH]; [apply moves_on_done|].
  cbn [each]. apply moves_on_next; [apply Hbody|]. intros _. exact IH.
Qed.

Lemma later_one_talk_written (s : process) (c' : conn) :
  one_talk_written (db s) c' -> later s (Process c' (env s)).
Proof.
  intros (Hf & _ & Ht). unfold later, grown, files_unique. cbn [db env].
  rewrite Hf. split; [split; [|reflexivity]|].
  - destruct Ht as [->|(k & row & ->)]; [reflexivity|].
    rewrite dom_insert_L. set_solver.
  - repeat split; auto. exists []. rewrite app_nil_r. auto.
Qed.

Lemma moves_on_db {A} (c : M conn A) :
  (forall d r d', c d = (r, d') -> one_talk_written d d') ->
  moves_on (on_db c).
Proof.
  intros Hc s r s'. unfold on_db.
  destruct (c (db s)) as [[a|e] d'] eqn:Hcd; intros [= _ <-];
    apply later_one_talk_written; eauto.
Qed.

Lemma later_quiet (s : process) (w' : world) :
  fs w' = fs (env s) -> stdout (env s) `prefix_of` stdout w' ->
  later s (Process (db s) w').
Proof.
  intros Hfs [lines Hout]. unfold later, grown. cbn [db env]. rewrite Hfs.
  repeat split; auto. exists lines. auto.
Qed.

Lemma moves_on_env {A} (c : M world A) :
  (forall w r w', c w = (r, w') ->
     fs w' = fs w /\ stdout w `prefix_of` stdout w') ->
  moves_on (on_env c).
Proof.
  intros Hc s r s'. unfold on_env.
  destruct (c (env s)) as [[a|e] w'] eqn:Hcw; intros [= _ <-];
    destruct (Hc _ _ _ Hcw); now apply later_quiet.
Qed.

Lemma update_enrichment_effect
    (i : Z) (a d : string) (c c' : conn) (r : result unit) :
  update_enrichment i a d c = (r, c') -> one_talk_written c c'.
Proof.
  rewrite update_enrichment_eq. intros H.
  repeat case_match; injection H as <- <-; try apply one_talk_written_refl.
  unfold one_talk_written, with_talks. cbn [files files_seq talks].
  repeat split. right. eauto.
Qed.

Lemma resolver_quiet
    (title : pyval) (w w' : world) (r : result (option string)) :
  get_release_url_from_website net lower strip html_parser title w = (r, w') ->
  fs w' = fs w /\ stdout w `prefix_of` stdout w'.
Proof.
  unfold Web.get_release_url_from_website, try_except, requests_get_page,
    raise_for_status.
  cbv [bind send ret raise print said lift].
  intros H. repeat case_match; simplify_eq; cbn [fs stdout];
    (split; [reflexivity|]); try reflexivity; now eexists.
Qed.

Lemma release_page_quiet
    (release_url : string) (w w' : world) (r : result release_info) :
  parse_release_page net strip html_parser release_url w = (r, w') ->
  fs w' = fs w /\ stdout w `prefix_of` stdout w'.
Proof.
  unfold Web.parse_release_page. cbn zeta.
  unfold bind at 1. rewrite release_page_fetch. cbn zeta.
  destruct (page_of net release_url) as [|status_code text];
    [|destruct (is_error status_code)];
    unfold ret; intros [= _ <-]; cbn [fs stdout said];
    (split; [reflexivity|]); try reflexivity; now eexists.
Qed.

Lemma download_outcome (url path : string) (w w' : world) (r : result bool) :
  download_file url path w = (r, w') ->
  exists (ok : bool) (lines : list message),
    r = Return ok /\
    stdout w' = stdout w ++ lines /\
    (ok = true -> exists m, m ∈ lines /\ success_line path m) /\
    (forall p, p <> path -> fs w' !! p = fs w !! p).
Proof.
  rewrite download_file_eq. cbn zeta. unfold success_line, said, cleared.
  cbn [fs stdout sent].
  destruct (already_complete _ path w).
  { intros [= <- <-]. cbn [fs stdout]. exists true, [AlreadyComplete path].
    repeat split; auto. intros _. eexists.
    split; [apply list_elem_of_singleton; reflexivity|auto]. }
  set (pre := _ ++ [Downloading url path]).
  assert (Hfailed :
    forall r w',
      (Return false,
       World (delete path (fs w)) ((stdout w ++ pre) ++ [DownloadFailed url])
         (sent w ++ [HEAD url; GET url])) = (r, w') ->
      exists (ok : bool) (lines : list message),
        r = Return ok /\
        stdout w' = stdout w ++ lines /\
        (ok = true ->
         exists m, m ∈ lines /\
           (m = AlreadyComplete path \/ m = SizeWarning path \/
            m = DownloadDone path)) /\
        (forall p, p <> path -> fs w' !! p = fs w !! p)).
  { intros r1 w1 [= <- <-]. cbn [fs stdout].
    exists false, (pre ++ [DownloadFailed url]).
    split; [reflexivity|]. split; [now rewrite (assoc_L (++))|].
    split; [discriminate|].
    intros p Hp. now rewrite lookup_delete_ne by congruence. }
  destruct (get_of net url) as [|status_code chunks broken]; [apply Hfailed|].
  destruct (is_error status_code); [apply Hfailed|].
  destruct broken; [apply Hfailed|].
  intros [= <- <-]. cbn [fs stdout]. eexists true, (pre ++ [_]).
  split; [reflexivity|]. split; [now rewrite (assoc_L (++))|]. split.
  - intros _. eexists.
    split; [apply elem_of_app; right; apply list_elem_of_singleton;
            reflexivity|].
    case_match; auto.
  - intros p Hp. now rewrite lookup_insert_ne by congruence.
Qed.

Lemma record_outcome (t : Z) (ty u p : string) (c c' : conn) (r : result unit) :
  insert_or_ignore_file t ty u p c = (r, c') ->
  talks c' = talks c /\
  (files c' = files c \/
   exists row, files c' = files c ++ [row] /\ local_path row = SqlText p) /\
  (files_unique c -> files_unique c').
Proof.
  intros H. split; [|split].
  - revert H. rewrite insert_or_ignore_file_eq. intros H.
    repeat case_match; now injection H as <- <-.
  - revert H. rewrite insert_or_ignore_file_eq. intros H.
    repeat case_match; injection H as <- <-; auto.
    right. eexists. split; reflexivity.
  - intros Hc.
    pose proof (insert_or_ignore_file_unique numeric_affinity random_rowid
                  t ty u p c Hc) as Hu.
    now rewrite H in Hu.
Qed.

Lemma moves_on_fetch (t : Z) (ty url path : string) :
  String.prefix "download/" path = true ->
  moves_on
    (next (on_env (download_file url path))
       (fun success : bool =>
          if success then on_db (insert_or_ignore_file t ty url path)
          else done tt)).
Proof.
  intros Hpath s r s'. unfold next, on_env at 1.
  destruct (download_file url path (env s)) as [r0 w1] eqn:Hd.
  apply download_outcome in Hd as (ok & lines & -> & Hout & Hline & Hfs).
  assert (Hbelow :
    forall p, String.prefix "download/" p = false ->
              fs w1 !! p = fs (env s) !! p).
  { intros p Hp. apply Hfs. intros ->. congruence. }
  destruct ok.
  2:{ intros [= _ <-]. unfold later, grown. cbn [db env].
      repeat split; auto. exists lines. auto. }
  destruct (Hline eq_refl) as (m & Hm & Hs).
  unfold on_db. cbn [db env].
  destruct (insert_or_ignore_file t ty url path (db s)) as [r1 c1] eqn:Hi.
  apply record_outcome in Hi as (Ht & Hf & Hu).
  assert (later s (Process c1 w1)) as Hlater.
  { unfold later, grown. cbn [db env]. rewrite Ht.
    split; [split; [reflexivity|]|].
    { destruct Hf as [->|(row & -> & _)]; [reflexivity|]. now eexists. }
    split; [exact Hu|]. split; [|exact Hbelow].
    exists lines. split; [exact Hout|].
    intros row Hrow. destruct Hf as [Hf|(row' & Hf & Hp)];
      rewrite Hf in Hrow; [now left|].
    apply elem_of_app in Hrow as [Hrow|Hrow]; [now left|].
    apply list_elem_of_singleton in Hrow. subst row'.
    right. exists path, m. auto. }
  destruct r1; intros [= _ <-]; exact Hlater.
Qed.

Lemma prefix_append (a b : string) : String.prefix a (a +:+ b) = true.
Proof.
  induction a as [|c a IH]; [now destruct b|].
  change (String c a +:+ b) with (String c (a +:+ b)).
  cbn [String.prefix]. now destruct (ascii_dec c c).
Qed.

Lemma below_download (x y : string) :
  String.prefix "download/" ((DOWNLOAD_DIR +:+ "/" +:+ x) +:+ y) = true.
Proof.
  change ((DOWNLOAD_DIR +:+ "/" +:+ x) +:+ y) with (("download/" +:+ x) +:+ y).
  rewrite append_assoc. apply prefix_append.
Qed.

Lemma child_below_download (x name path : string) :
  child (DOWNLOAD_DIR +:+ "/" +:+ x) name = Some path ->
  String.prefix "download/" path = true.
Proof.
  unfold child. case_match; [discriminate|]. intros [= <-].
  apply below_download.
Qed.

Lemma moves_on_fetch_audio (talk_id : Z) (x : string) (asset : string * string) :
  moves_on
    (fetch_audio numeric_affinity random_rowid int_of_str net talk_id
       (DOWNLOAD_DIR +:+ "/" +:+ x) asset).
Proof.
  destruct asset as [filetype url]. unfold fetch_audio.
  destruct (child _ _) as [audio_path|] eqn:Hchild; [|apply moves_on_stop].
  apply moves_on_fetch. exact (child_below_download _ _ _ Hchild).
Qed.

Lemma moves_on_int (v : pyval) : moves_on (int int_of_str v).
Proof.
  destruct v as [|z|t]; cbn [int];
    [apply moves_on_stop|apply moves_on_done|].
  destruct (int_of_str t); [apply moves_on_done|apply moves_on_stop].
Qed.

Lemma moves_on_process_entry (entry : dict) : moves_on (process_entry entry).
Proof.
  unfold Main.process_entry.
  apply moves_on_next; [apply moves_on_eval|]. intros id.
  apply moves_on_next; [apply moves_on_int|]. intros talk_id. cbn zeta.
  apply moves_on_next.
  { case_match; [|apply moves_on_done].
    apply moves_on_next;
      [apply moves_on_env; intros w r w'; apply resolver_quiet|].
    intros [url|]; [|apply moves_on_done].
    case_match; apply moves_on_done. }
  intros talk_data.
  apply moves_on_next;
    [apply moves_on_db; intros d r d'; apply upsert_talk_effect|].
  intros _. apply moves_on_next.
  { case_match; [|apply moves_on_done].
    apply moves_on_fetch, below_download. }
  intros _. apply moves_on_next.
  { case_match; [|apply moves_on_done].
    case_match; try apply moves_on_stop.
    apply moves_on_fetch, below_download. }
  intros _. case_match; [|apply moves_on_done].
  apply moves_on_next;
    [apply moves_on_env; intros w r w'; apply release_page_quiet|].
  intros extra_info.
  apply moves_on_next;
    [apply moves_on_db; intros d r d'; apply update_enrichment_effect|].
  intros _. apply moves_on_next.
  { destruct (video_hd_url extra_info) as [hd_url|]; [|apply moves_on_done].
    case_match; [apply moves_on_done|].
    apply moves_on_fetch, below_download. }
  intros _. apply moves_on_each. intros asset. apply moves_on_fetch_audio.
Qed.

Lemma main_later
    (database : option conn) (w : world) (s' : process) (e : ending) :
  main database w = (e, s') -> later (Process (connect database) w) s'.
Proof.
  unfold Main.main. cbn zeta.
  set (s := Process (connect database) w).
  set (s1 := Process (connect database) _).
  assert (Hs1 : later s s1).
  { unfold later, grown, s1. cbn [db env fs stdout].
    repeat split; auto. exists []. rewrite app_nil_r. auto. }
  intros H. repeat case_match; simplify_eq; try exact Hs1;
    (eapply later_trans; [exact Hs1|]);
    (eapply moves_on_each; [apply moves_on_process_entry|eassumption]).
Qed.

Lemma next_inl {A B} (c : Run A) (k : A -> Run B) (s s' : process) (b : B) :
  next c k s = (inl b, s') ->
  exists a s1, c s = (inl a, s1) /\ k a s1 = (inl b, s').
Proof.
  unfold next. destruct (c s) as [[a|h] s1]; [eauto|discriminate].
Qed.

Lemma upsert_talk_present (td : dict) (i : Z) (c c' : conn) :
  td !! "id" = Some (PInt i) ->
  upsert_talk td c = (Return tt, c') ->
  i ∈ dom (talks c').
Proof.
  intros Hid H. destruct (talks c !! i) as [old|] eqn:Hi.
  - apply upsert_talk_effect in H as (_ & _ & Ht).
    assert (i ∈ dom (talks c)) by (apply elem_of_dom; eauto).
    destruct Ht as [->|(k & row & ->)]; [assumption|].
    rewrite dom_insert_L. set_solver.
  - rewrite (upsert_talk_new _ _ _ _ _ Hid Hi) in H.
    repeat case_match; simplify_eq. unfold with_talks. cbn [talks].
    rewrite dom_insert_L. set_solver.
Qed.

Ltac moves_on_run :=
  repeat first
    [ apply moves_on_done
    | apply moves_on_stop
    | apply moves_on_eval
    | apply moves_on_int
    | apply moves_on_fetch, below_download
    | apply moves_on_fetch_audio
    | apply moves_on_each; intros ?
    | apply moves_on_db; intros ? ? ?;
      first [apply upsert_talk_effect|apply update_enrichment_effect]
    | apply moves_on_env; intros ? ? ?;
      first [apply resolver_quiet|apply release_page_quiet]
    | apply moves_on_next; [|intros ?]
    | case_match ].

Lemma process_entry_catalogs (entry : dict) (s s' : process) :
  process_entry entry s = (inl tt, s') ->
  exists i, id_of int_of_str entry = Some i /\ i ∈ dom (talks (db s')).
Proof.
  unfold Main.process_entry. intros H.
  apply next_inl in H as (id & s1 & Hid & H).
  apply next_inl in H as (talk_id & s2 & Hint & H). cbn zeta in H.
  apply next_inl in H as (talk_data & s3 & Hdata & H).
  apply next_inl in H as ([] & s4 & Hupsert & H).
  exists talk_id. split.
  - unfold id_of. unfold eval, getitem in Hid.
    destruct (entry !! "id") as [v|]; [|discriminate].
    injection Hid as -> _. destruct id as [|z|t]; cbn [int] in Hint.
    + discriminate.
    + now injection Hint as ->.
    + destruct (int_of_str t); [|discriminate]. now injection Hint as ->.
  - assert (Hkey : talk_data !! "id" = Some (PInt talk_id)).
    { match type of Hdata with
      | (if ?b then _ else _) _ = _ => destruct b
      end.
      - apply next_inl in Hdata as ([url|] & s5 & _ & Hdata);
          [destruct (String.eqb url "")|]; injection Hdata as <- _;
          reflexivity.
      - injection Hdata as <- _. reflexivity. }
    unfold on_db in Hupsert.
    destruct (upsert_talk talk_data (db s3)) as [[[]|e] c4] eqn:Hc;
      [|discriminate].
    injection Hupsert as <-.
    pose proof (upsert_talk_present _ _ _ _ Hkey Hc) as Hin.
    assert (Hlater : later (Process c4 (env s3)) s').
    { match type of H with
      | ?T ?x = _ => assert (moves_on T) as Hm by moves_on_run
      end.
      exact (Hm _ _ _ H). }
    destruct Hlater as ([Hdom _] & _). exact (Hdom _ Hin).
Qed.

Lemma each_catalogs (data : list dict) (s s' : process) :
  each data process_entry s = (inl tt, s') ->
  forall entry, entry ∈ data ->
    exists i, id_of int_of_str entry = Some i /\ i ∈ dom (talks (db s')).
Proof.
  revert s. induction data as [|first rest IH]; intros s H entry Hin.
  - now apply elem_of_nil in Hin.
  - cbn [each] in H. apply next_inl in H as ([] & s1 & Hfirst & Hrest).
    apply elem_of_cons in Hin as [->|Hin]; [|exact (IH _ Hrest _ Hin)].
    destruct (process_entry_catalogs _ _ _ Hfirst) as (i & Hi & Hdom).
    exists i. split; [exact Hi|].
    pose proof (moves_on_each rest process_entry moves_on_process_entry
                  _ _ _ Hrest) as ([Hsub _] & _).
    exact (Hsub _ Hdom).
Qed.

Lemma each_app (pre post : list dict) (s s1 : process) :
  each pre process_entry s = (inl tt, s1) ->
  each (pre ++ post) process_entry s = each post process_entry s1.
Proof.
  revert s. induction pre as [|first rest IH]; intros s H.
  - now injection H as <-.
  - cbn [each] in H. apply next_inl in H as ([] & s2 & Hfirst & Hrest).
    change ((first :: rest) ++ post) with (first :: (rest ++ post)).
    cbn [each]. unfold next at 1. rewrite Hfirst. exact (IH _ Hrest).
Qed.

Lemma process_entry_no_id (entry : dict) :
  id_of int_of_str entry = None ->
  exists h,
    (h = Raised (KeyError "id") \/ h = Raised TypeError \/ h = ValueError) /\
    forall s, process_entry entry s = (inr h, s).
Proof.
  unfold id_of, Main.process_entry, next, eval, getitem.
  destruct (entry !! "id") as [[|z|t]|]; try discriminate.
  - eexists. split; [right; left; reflexivity|reflexivity].
  - destruct (int_of_str t) eqn:Ht; [discriminate|].
    eexists. split; [right; right; reflexivity|].
    intros s. cbv [done stop int]. now rewrite Ht.
  - eexists. split; [left; reflexivity|reflexivity].
Qed.

(** X18. When the feed cannot be had ([main] ends at its error line), the
    run has done no more than open the database and send one request,
    the GET of the feed: the database is as [init_db()] leaves it, created
    with its two tables empty if it was not there and with its rows as
    they were otherwise, and no file but the database's own is touched. *)
Theorem main_feed_failure_changes_nothing
    (database : option conn) (w : world) (s' : process) :
  main database w = (FeedFailed, s') ->
  db s' = connect database /\
  (forall path, String.prefix DB_FILE path = false ->
     fs (env s') !! path = fs w !! path) /\
  sent (env s') = sent w ++ [GET JSON_URL].
Proof.
  unfold Main.main. cbn zeta. intros H.
  repeat case_match; simplify_eq; cbn [db env fs stdout sent]; auto.
Qed.

(** X19. A run of [main] only adds to the catalog, however it ends: every
    talk that was there is still there, the rows of [files] are still
    there in front of the new ones, and [files] still holds one row per
    triple if it did before. *)
Theorem main_only_adds_to_the_catalog
    (database : option conn) (w : world) (s' : process) (e : ending) :
  main database w = (e, s') ->
  grown (connect database) (db s') /\
  (files_unique (connect database) -> files_unique (db s')).
Proof.
  intros H. apply main_later in H as (Hgrown & Hunique & _).
  now split.
Qed.

(** X20. [main] records a file only after [download_file] has reported
    it: for every row that a run adds to [files], the run has printed one
    of the three lines with which [download_file] returns [True] for the
    row's [local_path]: the file is already complete, the download has
    succeeded, or the warning that the file has another size than
    expected. *)
Theorem main_records_only_reported_downloads
    (database : option conn) (w : world) (s' : process) (e : ending) :
  main database w = (e, s') ->
  exists lines,
    stdout (env s') = stdout w ++ lines /\
    forall row, row ∈ files (db s') ->
      row ∈ files (connect database) \/ vouched lines row.
Proof.
  intros H. now apply main_later in H as (_ & _ & Hlines & _).
Qed.

(** X21. Apart from its database, [main] writes below [download/] only:
    every path that is neither below [download/] nor one of the
    database's own ([DB_FILE] and what SQLite keeps next to it under a
    longer name) holds after the run what it held before, however the
    run ends. *)
Theorem main_writes_below_download_only
    (database : option conn) (w : world) (s' : process) (e : ending)
    (path : string) :
  main database w = (e, s') ->
  String.prefix "download/" path = false ->
  String.prefix DB_FILE path = false ->
  fs (env s') !! path = fs w !! path.
Proof.
  intros H Hpath _. apply main_later in H as (_ & _ & _ & Hfs).
  exact (Hfs _ Hpath).
Qed.

(** X22. A run that reaches its closing line has catalogued the whole
    feed: the feed was fetched and decoded, every entry of it has an id
    that [int] accepts, and a row of [talks] for that id is there. *)
Theorem finished_run_catalogs_every_entry
    (database : option conn) (w : world) (s' : process) :
  main database w = (Finished, s') ->
  exists status_code text data,
    page_of net JSON_URL = PageResponse status_code text /\
    is_error status_code = false /\
    json_loads text = Some data /\
    forall entry, entry ∈ data ->
      exists i, id_of int_of_str entry = Some i /\ i ∈ dom (talks (db s')).
Proof.
  unfold Main.main. cbn zeta. intros H.
  destruct (page_of net JSON_URL) as [|status_code text]; [discriminate|].
  destruct (is_error status_code) eqn:Hok; [discriminate|].
  destruct (json_loads text) as [data|] eqn:Hdata; [|discriminate].
  exists status_code, text, data.
  split; [reflexivity|]. split; [exact Hok|]. split; [exact Hdata|].
  destruct (each data process_entry _) as [[[]|h] s1] eqn:Heach;
    [|discriminate].
  injection H as <-. exact (each_catalogs _ _ _ Heach).
Qed.

(** X23. A talk that is neither recorded nor released and has no
    thumbnail costs nothing but its upsert: the loop body sends no
    request, prints nothing and touches no file, and in the catalog it
    writes at most one row of [talks] and nothing else. *)
Theorem unrecorded_entry_stays_offline
    (entry : dict) (s s' : process) (r : unit + halt) :
  recorded_or_released (get entry "status") = false ->
  truthy (get entry "thumbnail") = false ->
  process_entry entry s = (r, s') ->
  env s' = env s /\ one_talk_written (db s) (db s').
Proof.
  intros Hst Hth. unfold Main.process_entry, next, eval, done, stop.
  destruct (getitem entry "id") as [id|e].
  2:{ intros [= _ <-]. split; [reflexivity|apply one_talk_written_refl]. }
  assert (Hint :
    (exists talk_id, forall s0, int int_of_str id s0 = (inl talk_id, s0)) \/
    (exists h, forall s0, int int_of_str id s0 = (inr h, s0))).
  { destruct id as [|z|t]; cbn [int]; [right|left|]; try (now eexists).
    destruct (int_of_str t); [left|right]; now eexists. }
  destruct Hint as [(talk_id & Hint)|(h & Hint)]; rewrite Hint.
  2:{ intros [= _ <-]. split; [reflexivity|apply one_talk_written_refl]. }
  cbn zeta.
  assert (Hstatus :
    forall (v1 v2 v3 v4 v5 v6 v7 v8 : pyval),
      get (list_to_map
             [("id", v1); ("guid", v2); ("title", v3); ("room", v4);
              ("status", get entry "status"); ("start", v5);
              ("duration", v6); ("release_url", v7); ("mtime", v8)])
        "status" = get entry "status") by reflexivity.
  rewrite !Hstatus, Hst, Hth. cbn [andb]. unfold on_db.
  destruct (upsert_talk _ (db s)) as [[[]|e] c1] eqn:Hu; cbn [db env];
    rewrite ?Hstatus, ?Hst; cbn [andb];
    intros [= _ <-]; cbn [db env];
    (split; [reflexivity|exact (upsert_talk_effect _ _ _ _ _ _ Hu)]).
Qed.


End MainFacts.

(** ** More runs on concrete inputs *)

Module MoreRuns.

Import Catalog Web Sample Frames Cases.

Local Abbreviation upsert_talk := (upsert_talk numeric_affinity random_rowid).
Local Abbreviation insert_or_ignore_file :=
  (insert_or_ignore_file numeric_affinity random_rowid).
Local Abbreviation update_enrichment :=
  (update_enrichment numeric_affinity random_rowid).
Local Abbreviation download_file := (download_file int_of_str).

(** Talk 1 is in the catalog; a snapshot of it without [mtime] raises. *)
Lemma upsert_talk_raises_unchanged_run :
  let c' := snd (upsert_talk talk_no_mtime enriched) in
  upsert_talk talk_no_mtime enriched = (Raise (KeyError "mtime"), c') /\
  c' = enriched.
Proof.
  cbn zeta.
  assert (H : upsert_talk talk_no_mtime enriched
              = (Raise (KeyError "mtime"),
                 snd (upsert_talk talk_no_mtime enriched)))
    by (vm_compute; reflexivity).
  split; [exact H|].
  exact (upsert_talk_raises_unchanged numeric_affinity random_rowid
           _ _ _ _ H).
Defined.

(** Version 8 of talk 1 on the enriched catalog. *)
Lemma upsert_talk_keeps_what_is_there_run :
  let c' := snd (upsert_talk talk_v8 enriched) in
  upsert_talk talk_v8 enriched = (Return tt, c') /\
  files c' = files enriched /\ files_seq c' = files_seq enriched /\
  dom (talks enriched) ⊆ dom (talks c').
Proof.
  cbn zeta.
  assert (H : upsert_talk talk_v8 enriched
              = (Return tt, snd (upsert_talk talk_v8 enriched)))
    by (vm_compute; reflexivity).
  split; [exact H|].
  exact (upsert_talk_keeps_what_is_there numeric_affinity random_rowid
           _ _ _ _ H).
Defined.

(** Version 8 of talk 1 leaves the authors and the description of the
    enriched row. *)
Lemma upsert_talk_keeps_enrichment_run :
  let c' := snd (upsert_talk talk_v8 enriched) in
  upsert_talk talk_v8 enriched = (Return tt, c') /\
  exists new,
    talks c' !! 1 = Some new /\
    Catalog.authors new = SqlText "Alice, Bob" /\
    Catalog.description new = SqlText "All about A.".
Proof.
  cbn zeta.
  assert (H : upsert_talk talk_v8 enriched
              = (Return tt, snd (upsert_talk talk_v8 enriched)))
    by (vm_compute; reflexivity).
  split; [exact H|].
  destruct (upsert_talk_keeps_enrichment numeric_affinity random_rowid
              talk_v8 1 enriched _ _ eq_refl H) as (_ & Hrow).
  exact (Hrow _ eq_refl).
Defined.

(** Version 8 of talk 1 over clock 5, and version 3 over clock 5. *)
Lemma upsert_talk_clock_is_max_run :
  let c8 := snd (upsert_talk talk_v8 enriched) in
  let c3 := snd (upsert_talk talk_v3 enriched) in
  upsert_talk talk_v8 enriched = (Return tt, c8) /\
  upsert_talk talk_v3 enriched = (Return tt, c3) /\
  (exists new, talks c8 !! 1 = Some new /\
               existing_mtime (last_mtime new) = PInt 8) /\
  (exists new, talks c3 !! 1 = Some new /\
               existing_mtime (last_mtime new) = PInt 5).
Proof.
  cbn zeta.
  assert (H8 : upsert_talk talk_v8 enriched
               = (Return tt, snd (upsert_talk talk_v8 enriched)))
    by (vm_compute; reflexivity).
  assert (H3 : upsert_talk talk_v3 enriched
               = (Return tt, snd (upsert_talk talk_v3 enriched)))
    by (vm_compute; reflexivity).
  split; [exact H8|]. split; [exact H3|]. split.
  - destruct (upsert_talk_clock_is_max numeric_affinity random_rowid
                talk_v8 1 8 enriched _ eq_refl eq_refl H8)
      as (new & Hnew & Hclock).
    exists new. split; [exact Hnew|].
    change (talks enriched !! 1)
      with (Some (row_of_talk "Talk A" "released" (SqlText "Alice, Bob")
                    (SqlText "All about A.") 5)) in Hclock.
    destruct Hclock as (e & He & Hmax). injection He as <-. exact Hmax.
  - destruct (upsert_talk_clock_is_max numeric_affinity random_rowid
                talk_v3 1 3 enriched _ eq_refl eq_refl H3)
      as (new & Hnew & Hclock).
    exists new. split; [exact Hnew|].
    change (talks enriched !! 1)
      with (Some (row_of_talk "Talk A" "released" (SqlText "Alice, Bob")
                    (SqlText "All about A.") 5)) in Hclock.
    destruct Hclock as (e & He & Hmax). injection He as <-. exact Hmax.
Defined.

(** A snapshot with a null [mtime], twice on a new database. *)
Lemma upsert_talk_null_mtime_raises_on_update_run :
  let c1 := snd (upsert_talk talk_null_mtime init_db) in
  upsert_talk talk_null_mtime init_db = (Return tt, c1) /\
  is_Some (talks c1 !! 1) /\
  upsert_talk talk_null_mtime c1 = (Raise TypeError, c1).
Proof.
  cbn zeta.
  assert (H : upsert_talk talk_null_mtime init_db
              = (Return tt, snd (upsert_talk talk_null_mtime init_db)))
    by (vm_compute; reflexivity).
  split; [exact H|].
  exact (proj2 (upsert_talk_null_mtime_raises_on_update numeric_affinity
                  random_rowid talk_null_mtime 1 init_db _
                  eq_refl eq_refl H)).
Defined.

(** The muxed file of talk 1, recorded in a new database. *)
Lemma insert_or_ignore_file_appends_run :
  let url := "https://cdn.c3voc.de/relive/38c3/1/muxed.mp4" in
  let c' := snd (insert_or_ignore_file 1 "muxed" url "download/1/muxed.mp4"
                   init_db) in
  insert_or_ignore_file 1 "muxed" url "download/1/muxed.mp4" init_db
    = (Return tt, c') /\
  talks c' = talks init_db /\
  (files c' = files init_db \/
   exists row,
     files c' = files init_db ++ [row] /\
     triple row = (SqlInt 1, SqlText "muxed", SqlText url) /\
     local_path row = SqlText "download/1/muxed.mp4" /\
     Forall (fun old => file_id old < file_id row) (files init_db)).
Proof.
  cbn zeta.
  assert (H : insert_or_ignore_file 1 "muxed"
                "https://cdn.c3voc.de/relive/38c3/1/muxed.mp4"
                "download/1/muxed.mp4" init_db
              = (Return tt,
                 snd (insert_or_ignore_file 1 "muxed"
                        "https://cdn.c3voc.de/relive/38c3/1/muxed.mp4"
                        "download/1/muxed.mp4" init_db)))
    by (vm_compute; reflexivity).
  split; [exact H|].
  exact (insert_or_ignore_file_appends numeric_affinity random_rowid
           _ _ _ _ _ _ _ H).
Defined.

(** A talk id within 64 bits on a new database, and one beyond. *)
Lemma insert_or_ignore_file_failures_run :
  (exists c',
     insert_or_ignore_file 1 "muxed" "u" "download/1/muxed.mp4" init_db
       = (Return tt, c')) /\
  insert_or_ignore_file (2 ^ 63) "muxed" "u" "download/1/muxed.mp4" init_db
    = (Raise OverflowError, init_db) /\
  int64 (2 ^ 63) = false.
Proof.
  destruct (insert_or_ignore_file_failures numeric_affinity random_rowid
              1 "muxed" "u" "download/1/muxed.mp4" init_db) as (Hreturns & _).
  destruct (insert_or_ignore_file_failures numeric_affinity random_rowid
              (2 ^ 63) "muxed" "u" "download/1/muxed.mp4" init_db)
    as (_ & Hraises).
  assert (H : insert_or_ignore_file (2 ^ 63) "muxed" "u"
                "download/1/muxed.mp4" init_db
              = (Raise OverflowError, init_db))
    by (vm_compute; reflexivity).
  split; [apply Hreturns; [reflexivity|vm_compute; discriminate]|].
  split; [exact H|].
  destruct (Hraises _ _ H) as (_ & [[_ Hwide]|[Hno _]]);
    [exact Hwide|discriminate].
Defined.

(** The authors alone, stored for talk 1 of the enriched catalog. *)
Lemma update_enrichment_frame_run :
  let c' := snd (update_enrichment 1 "Alice" "" enriched) in
  update_enrichment 1 "Alice" "" enriched = (Return tt, c') /\
  files c' = files enriched /\ dom (talks c') = dom (talks enriched) /\
  forall old new,
    talks enriched !! 1 = Some old -> talks c' !! 1 = Some new ->
    same_snapshot old new.
Proof.
  cbn zeta.
  assert (H : update_enrichment 1 "Alice" "" enriched
              = (Return tt, snd (update_enrichment 1 "Alice" "" enriched)))
    by (vm_compute; reflexivity).
  split; [exact H|].
  destruct (update_enrichment_frame numeric_affinity random_rowid
              _ _ _ _ _ _ H) as (Hfiles & _ & Hdom & _ & Hrow).
  auto.
Defined.


(** A download next to another file. *)
Lemma download_file_touches_one_path_run :
  let w := disk "keep.txt" "kept" in
  let w' := snd (download_file (short_body false) "u" "download/1/muxed.mp4" w) in
  download_file (short_body false) "u" "download/1/muxed.mp4" w
    = (Return true, w') /\
  fs w' !! "keep.txt" = Some "kept".
Proof.
  cbn zeta.
  assert (H : download_file (short_body false) "u" "download/1/muxed.mp4"
                (disk "keep.txt" "kept")
              = (Return true,
                 snd (download_file (short_body false) "u"
                        "download/1/muxed.mp4" (disk "keep.txt" "kept"))))
    by (vm_compute; reflexivity).
  split; [exact H|].
  rewrite (download_file_touches_one_path int_of_str (short_body false)
             "u" "download/1/muxed.mp4" "keep.txt" _ _ _ H);
    [reflexivity|discriminate].
Defined.

(** A download that succeeds on an empty disk. *)
Lemma successful_download_leaves_a_file_run :
  let w' := snd (download_file (short_body false) "u" "download/1/muxed.mp4"
                   nowhere) in
  download_file (short_body false) "u" "download/1/muxed.mp4" nowhere
    = (Return true, w') /\
  is_Some (fs w' !! "download/1/muxed.mp4").
Proof.
  cbn zeta.
  assert (H : download_file (short_body false) "u" "download/1/muxed.mp4"
                nowhere
              = (Return true,
                 snd (download_file (short_body false) "u"
                        "download/1/muxed.mp4" nowhere)))
    by (vm_compute; reflexivity).
  split; [exact H|].
  exact (successful_download_leaves_a_file int_of_str (short_body false)
           _ _ _ _ H).
Defined.

(** A download from a server that answers no HEAD request, over an older
    file. *)
Lemma download_without_known_size_run :
  exists w',
    download_file no_probe "u" "download/1/muxed.mp4"
      (disk "download/1/muxed.mp4" "old") = (Return true, w') /\
    fs w' = {[ "download/1/muxed.mp4" := "abcdefg" ]} /\
    sent w' = [HEAD "u"; GET "u"].
Proof.
  destruct (download_without_known_size int_of_str no_probe "u"
              "download/1/muxed.mp4" (disk "download/1/muxed.mp4" "old")
              200 ["abcd"; "efg"] eq_refl eq_refl eq_refl)
    as (w' & Hrun & Hfs & Hsent).
  exists w'. split; [exact Hrun|]. split; [|exact Hsent].
  rewrite Hfs. vm_compute. reflexivity.
Defined.

(** Two downloads in a row from a server that sends what it announces. *)
Lemma second_download_is_skipped_run :
  exists w1,
    download_file exact_body "u" "download/1/muxed.mp4" nowhere
      = (Return true, w1) /\
    download_file exact_body "u" "download/1/muxed.mp4" w1
      = (Return true,
         World (fs w1) (stdout w1 ++ [AlreadyComplete "download/1/muxed.mp4"])
           (sent w1 ++ [HEAD "u"])).
Proof.
  apply (second_download_is_skipped int_of_str exact_body "u"
           "download/1/muxed.mp4" nowhere 7 200 ["abcd"; ""; "efg"]);
    [reflexivity|lia|reflexivity|reflexivity|reflexivity].
Defined.


(** A release page with an HD link and an audio button. *)
Lemma parse_release_page_yields_usable_urls_run :
  let url := "https://media.ccc.de/v/talk-a" in
  let hd := "https://cdn.media.ccc.de/38c3/talk-a-h264-hd.mp4" in
  let out := parse_release_page pages strip (fun _ => release_page) url
               nowhere in
  exists info,
    out = (Return info, snd out) /\
    video_hd_url info = Some hd /\
    (hd <> "" /\ str_in "h264-hd" hd = true /\ endswith hd ".mp4" = true) /\
    (forall tag u, In (tag, u) (audio_urls info) -> u <> "").
Proof.
  cbn zeta.
  eexists. split; [vm_compute; reflexivity|].
  split; [reflexivity|].
  assert (H : parse_release_page pages strip (fun _ => release_page)
                "https://media.ccc.de/v/talk-a" nowhere
              = (Return
                   (ReleaseInfo "" ""
                      (Some "https://cdn.media.ccc.de/38c3/talk-a-h264-hd.mp4")
                      [("audio_None_opus",
                        "https://cdn.media.ccc.de/38c3/talk-a.opus")]),
                 snd (parse_release_page pages strip (fun _ => release_page)
                        "https://media.ccc.de/v/talk-a" nowhere)))
    by (vm_compute; reflexivity).
  destruct (parse_release_page_yields_usable_urls pages strip
              (fun _ => release_page) _ _ _ _ H) as (Hhd & Haudio).
  split; [exact (Hhd _ eq_refl)|exact Haudio].
Defined.



(** A first run against a server without feed, next to another file. *)
Lemma main_feed_failure_changes_nothing_run :
  let w := disk "keep.txt" "kept" in
  let s' := snd (main_on empty_then_down persons_only [] None w) in
  main_on empty_then_down persons_only [] None w = (Main.FeedFailed, s') /\
  Main.db s' = init_db /\
  fs (Main.env s') !! "keep.txt" = Some "kept" /\
  sent (Main.env s') = [GET Main.JSON_URL].
Proof.
  cbn zeta.
  assert (H : main_on empty_then_down persons_only [] None
                (disk "keep.txt" "kept")
              = (Main.FeedFailed,
                 snd (main_on empty_then_down persons_only [] None
                        (disk "keep.txt" "kept"))))
    by (vm_compute; reflexivity).
  split; [exact H|].
  destruct (main_feed_failure_changes_nothing numeric_affinity random_rowid
              int_of_str empty_then_down lower strip (fun _ => persons_only)
              (decoded []) None (disk "keep.txt" "kept") _ H)
    as (Hdb & Hfs & Hsent).
  split; [exact Hdb|]. split; [|exact Hsent].
  rewrite (Hfs "keep.txt"); reflexivity.
Defined.

(** A run over a feed of two talks, one recorded and one live, on the
    enriched catalog. *)
Lemma main_only_adds_to_the_catalog_run :
  let s' := snd (main_on mirror release_page [recorded_talk; live_talk]
                   (Some enriched) nowhere) in
  main_on mirror release_page [recorded_talk; live_talk] (Some enriched)
    nowhere = (Main.Finished, s') /\
  Main.grown enriched (Main.db s') /\ files_unique (Main.db s').
Proof.
  cbn zeta.
  assert (H : main_on mirror release_page [recorded_talk; live_talk]
                (Some enriched) nowhere
              = (Main.Finished,
                 snd (main_on mirror release_page [recorded_talk; live_talk]
                        (Some enriched) nowhere)))
    by (vm_compute; reflexivity).
  split; [exact H|].
  destruct (main_only_adds_to_the_catalog numeric_affinity random_rowid
              int_of_str mirror lower strip (fun _ => release_page)
              (decoded [recorded_talk; live_talk]) (Some enriched) nowhere
              _ _ H)
    as (Hgrown & Hunique).
  split; [exact Hgrown|]. apply Hunique. apply NoDup_nil_2.
Defined.

(** A first run over the same feed: the lines that vouch for the rows of
    [files]. *)
Lemma main_records_only_reported_downloads_run :
  let s' := snd (main_on mirror release_page [recorded_talk; live_talk]
                   None nowhere) in
  main_on mirror release_page [recorded_talk; live_talk] None nowhere
    = (Main.Finished, s') /\
  length (files (Main.db s')) = 4%nat /\
  forall row, row ∈ files (Main.db s') ->
    Main.vouched (stdout (Main.env s')) row.
Proof.
  cbn zeta.
  assert (H : main_on mirror release_page [recorded_talk; live_talk] None
                nowhere
              = (Main.Finished,
                 snd (main_on mirror release_page [recorded_talk; live_talk]
                        None nowhere)))
    by (vm_compute; reflexivity).
  split; [exact H|]. split; [vm_compute; reflexivity|].
  destruct (main_records_only_reported_downloads numeric_affinity
              random_rowid int_of_str mirror lower strip
              (fun _ => release_page)
              (decoded [recorded_talk; live_talk]) None nowhere _ _ H)
    as (lines & Hlines & Hrows).
  intros row Hrow. destruct (Hrows row Hrow) as [Hold|Hvouched].
  - now apply elem_of_nil in Hold.
  - rewrite Hlines. exact Hvouched.
Defined.

(** The same run next to a file outside [download/]. *)
Lemma main_writes_below_download_only_run :
  let w := disk "keep.txt" "kept" in
  let s' := snd (main_on mirror release_page [recorded_talk; live_talk]
                   None w) in
  main_on mirror release_page [recorded_talk; live_talk] None w
    = (Main.Finished, s') /\
  fs (Main.env s') !! "keep.txt" = Some "kept".
Proof.
  cbn zeta.
  assert (H : main_on mirror release_page [recorded_talk; live_talk] None
                (disk "keep.txt" "kept")
              = (Main.Finished,
                 snd (main_on mirror release_page [recorded_talk; live_talk]
                        None (disk "keep.txt" "kept"))))
    by (vm_compute; reflexivity).
  split; [exact H|].
  rewrite (main_writes_below_download_only numeric_affinity random_rowid
             int_of_str mirror lower strip (fun _ => release_page)
             (decoded [recorded_talk; live_talk]) _ _ _ _ "keep.txt" H);
    reflexivity.
Defined.

(** The same run: talks 7 and 8 are in the catalog. *)
Lemma finished_run_catalogs_every_entry_run :
  let s' := snd (main_on mirror release_page [recorded_talk; live_talk]
                   None nowhere) in
  main_on mirror release_page [recorded_talk; live_talk] None nowhere
    = (Main.Finished, s') /\
  forall entry, entry ∈ [recorded_talk; live_talk] ->
    exists i, Main.id_of int_of_str entry = Some i /\
              i ∈ dom (talks (Main.db s')).
Proof.
  cbn zeta.
  assert (H : main_on mirror release_page [recorded_talk; live_talk] None
                nowhere
              = (Main.Finished,
                 snd (main_on mirror release_page [recorded_talk; live_talk]
                        None nowhere)))
    by (vm_compute; reflexivity).
  split; [exact H|].
  destruct (finished_run_catalogs_every_entry numeric_affinity random_rowid
              int_of_str mirror lower strip (fun _ => release_page)
              (decoded [recorded_talk; live_talk]) None nowhere _ H)
    as (status_code & text & data & _ & _ & Hdata & Hall).
  injection Hdata as <-. exact Hall.
Defined.

(** The live talk alone: the world stays as it is. *)
Lemma unrecorded_entry_stays_offline_run :
  let s' := snd (entry_on mirror release_page live_talk start) in
  entry_on mirror release_page live_talk start = (inl tt, s') /\
  Main.env s' = nowhere /\ one_talk_written init_db (Main.db s').
Proof.
  cbn zeta.
  assert (H : entry_on mirror release_page live_talk start
              = (inl tt, snd (entry_on mirror release_page live_talk start)))
    by (vm_compute; reflexivity).
  split; [exact H|].
  exact (unrecorded_entry_stays_offline numeric_affinity random_rowid
           int_of_str mirror lower strip (fun _ => release_page)
           live_talk start _ _ eq_refl eq_refl H).
Defined.


End MoreRuns.
